(** * The consensus guessing protocol of rsallms, and its bookkeeping

    A shallow embedding of
      - [rsallms/solvers/gvc_2.py]  (class [GVCSolver]),
      - [rsallms/metrics.py]        (class [Metrics]),
      - [rsallms/endpoints.py]      (class [Endpoint], [__post_init__]),
    followed by the properties of the retry loop, of its feedback store,
    of the reply parsers, of the endpoint resolution and of the solve
    counter.

    Conventions.
    - A Python [str] is a [string]; every character stands for the code
      point of the same number, so the development covers the strings whose
      code points are below 256.
    - A Python [int] is a [Z], a list index or a length is a [nat].
    - A raised exception is a value of [exn]; a call that may raise returns
      a [result].
    - A [dict] whose iteration order is observable is an association list
      in insertion order; a [dict] that is only looked up is a [gmap]. *)

From Stdlib Require Import ZArith Ascii String List Lia DecimalString.
From stdpp Require Import base gmap strings list fin_maps.

Local Open Scope string_scope.

(** ** Exceptions and results *)

Inductive exn : Type :=
| ValueError (msg : string)
| OSError (msg : string)
| IndexError (msg : string)
| OtherError (name : string).

Inductive result (A : Type) : Type :=
| Ok (a : A)
| Raise (e : exn).
Arguments Ok {A} a.
Arguments Raise {A} e.

(** ** The string methods the parsers use *)

Module PyStr.

Definition nl : string := String (ascii_of_nat 10) EmptyString.
Definition newline : ascii := ascii_of_nat 10.
Definition comma : ascii := ascii_of_nat 44.

(** [str.isspace] on one character: the ASCII table of CPython
    (9 to 13, 28 to 32) and the two Latin-1 spaces 0x85 and 0xA0. *)
Definition is_space (c : ascii) : bool :=
  let n := nat_of_ascii c in
  ((9 <=? n)%nat && (n <=? 13)%nat) || ((28 <=? n)%nat && (n <=? 32)%nat)
  || (n =? 133)%nat || (n =? 160)%nat.

Fixpoint lstrip (s : string) : string :=
  match s with
  | EmptyString => EmptyString
  | String c s' => if is_space c then lstrip s' else s
  end.

Fixpoint rstrip (s : string) : string :=
  match s with
  | EmptyString => EmptyString
  | String c s' =>
      match rstrip s' with
      | EmptyString => if is_space c then EmptyString else String c EmptyString
      | r => String c r
      end
  end.

(** [s.strip()] *)
Definition strip (s : string) : string := rstrip (lstrip s).

(** [s.split(sep)] for a one-character separator: never the empty list. *)
Fixpoint split (sep : ascii) (s : string) : list string :=
  match s with
  | EmptyString => [EmptyString]
  | String c s' =>
      if Ascii.eqb c sep then EmptyString :: split sep s'
      else match split sep s' with
           | [] => [String c EmptyString]
           | h :: t => String c h :: t
           end
  end.

(** [s.startswith(p)] *)
Definition startswith (p s : string) : bool := String.prefix p s.

(** [s.replace(old, new)] for a non-empty [old]: occurrences are taken
    from the left and do not overlap; [skip] counts the characters of the
    occurrence just replaced that are still to be dropped. *)
Fixpoint replace_from (old new : string) (skip : nat) (s : string) : string :=
  match s with
  | EmptyString => EmptyString
  | String c s' =>
      match skip with
      | S k => replace_from old new k s'
      | O =>
          if String.prefix old s
          then new ++ replace_from old new (String.length old - 1) s'
          else String c (replace_from old new O s')
      end
  end.

Definition replace (old new s : string) : string := replace_from old new O s.

(** [sep.join(l)] *)
Definition join (sep : string) (l : list string) : string := String.concat sep l.

(** [str.lower] on one character: A to Z, and the Latin-1 capitals
    0xC0 to 0xDE without the multiplication sign 0xD7. *)
Definition lower_char (c : ascii) : ascii :=
  let n := nat_of_ascii c in
  if ((65 <=? n)%nat && (n <=? 90)%nat)
     || ((192 <=? n)%nat && (n <=? 222)%nat && negb (n =? 215)%nat)
  then ascii_of_nat (n + 32) else c.

Fixpoint lower (s : string) : string :=
  match s with
  | EmptyString => EmptyString
  | String c s' => String (lower_char c) (lower s')
  end.

(** [sub in s] *)
Fixpoint contains (sub s : string) : bool :=
  String.prefix sub s ||
  match s with
  | EmptyString => false
  | String _ s' => contains sub s'
  end.

(** [str(n)] and [f"{n}"] for an [int] *)
Definition of_Z (z : Z) : string := NilZero.string_of_int (Z.to_int z).
Definition of_nat (n : nat) : string := NilZero.string_of_uint (Nat.to_uint n).

(** [not s]: the empty string is the only false one. *)
Definition is_empty (s : string) : bool :=
  match s with EmptyString => true | _ => false end.

(** [next((x for x in l if p(x)), '')] *)
Definition next_or_empty (p : string -> bool) (l : list string) : string :=
  match List.find p l with
  | Some x => x
  | None => EmptyString
  end.

End PyStr.

(** ** [metrics.py]: the solve counter *)

Module Metrics.

Record t : Type := mk {
  total_levels : Z;
  points_per_correct : Z;
  penalty_per_failed_guess : Z;
  solves : list bool;
  failed_guesses : Z;
  solve_order : list Z;
  points : Z;
  tokens_used : gmap string Z
}.

(** The generated [__init__], with the three settings given and the
    other fields from their defaults and default factories. *)
Definition init (total_levels points_per_correct penalty : Z) : t :=
  mk total_levels points_per_correct penalty
     (List.repeat false 4) 0%Z [] 0%Z ∅.

(** [Metrics()] *)
Definition default : t := init 4%Z 5%Z 1%Z.

(** The position [l[i]] reads and writes: a negative [i] counts from
    the end, anything outside is an [IndexError]. *)
Definition py_index {A : Type} (l : list A) (i : Z) : option nat :=
  let n := Z.of_nat (length l) in
  if ((0 <=? i) && (i <? n))%Z then Some (Z.to_nat i)
  else if ((- n <=? i) && (i <? 0))%Z then Some (Z.to_nat (i + n))
  else None.

Definition increment_failed_guesses (self : t) : t :=
  mk (total_levels self) (points_per_correct self) (penalty_per_failed_guess self)
     (solves self) (failed_guesses self + 1)%Z (solve_order self) (points self)
     (tokens_used self).

(** The message of the [IndexError] of [l[i]]: an [int] that does not fit
    the index type of CPython (64 bits) is refused before the bounds of the
    list are looked at. *)
Definition index_error_message (i : Z) : string :=
  if ((- 2 ^ 63 <=? i) && (i <? 2 ^ 63))%Z
  then "list index out of range"
  else "cannot fit 'int' into an index-sized integer".

Definition add_solve (self : t) (level : Z) : result t :=
  match py_index (solves self) level with
  | None => Raise (IndexError (index_error_message level))
  | Some i =>
      match solves self !! i with
      | Some false =>
          Ok (mk (total_levels self) (points_per_correct self)
                 (penalty_per_failed_guess self)
                 (<[i := true]> (solves self))
                 (failed_guesses self)
                 (solve_order self ++ [level])%list
                 (points self + points_per_correct self)%Z
                 (tokens_used self))
      | _ => Ok self
      end
  end.

Definition add_tokens (self : t) (model_name : string) (token_count : Z) : t :=
  mk (total_levels self) (points_per_correct self) (penalty_per_failed_guess self)
     (solves self) (failed_guesses self) (solve_order self) (points self)
     (<[model_name := (match tokens_used self !! model_name with
                       | Some n => n | None => 0 end + token_count)%Z]>
        (tokens_used self)).

(** [self.solves[level]] as a test: the level is marked solved. *)
Definition solved (self : t) (level : Z) : Prop :=
  exists i, py_index (solves self) level = Some i /\ solves self !! i = Some true.

(** The object after a call: a call that raises leaves it as it was. *)
Definition after_add_solve (self : t) (level : Z) : t :=
  match add_solve self level with
  | Ok m => m
  | Raise _ => self
  end.

(** The states a [Metrics] object goes through when its methods are
    called on it. *)
Inductive reachable (m0 : t) : t -> Prop :=
| reach_init : reachable m0 m0
| reach_add_solve m level :
    reachable m0 m -> reachable m0 (after_add_solve m level)
| reach_failed m :
    reachable m0 m -> reachable m0 (increment_failed_guesses m)
| reach_tokens m name count :
    reachable m0 m -> reachable m0 (add_tokens m name count).

(** What the states reachable from a new object keep true. *)
Definition counted (ppc : Z) (m : t) : Prop :=
  NoDup (solve_order m) /\
  points m = (ppc * Z.of_nat (length (solve_order m)))%Z /\
  points_per_correct m = ppc /\
  (forall level, In level (solve_order m) -> solved m level).

(** [sum(self.solves)]: the number of levels marked solved. *)
Definition sum_solves (self : t) : nat :=
  length (List.filter (fun b : bool => b) (solves self)).

(** The property [final_points]. *)
Definition final_points (self : t) : Z :=
  let f_points := (points self - failed_guesses self * penalty_per_failed_guess self)%Z in
  Z.max f_points 0.

(** A run of [add_tokens] calls, one per pair of the list. *)
Definition add_tokens_all (self : t) (calls : list (string * Z)) : t :=
  List.fold_left (fun m call => add_tokens m (fst call) (snd call)) calls self.

(** The sum of the counts given under one name. *)
Definition tokens_under (name : string) (calls : list (string * Z)) : Z :=
  List.fold_right
    (fun call acc => if String.eqb (fst call) name then (snd call + acc)%Z else acc)
    0%Z calls.

(** What a new object keeps true of its slots, whatever is called on it. *)
Definition slotted (ppc pen : Z) (m : t) : Prop :=
  length (solves m) = 4 /\
  sum_solves m = length (solve_order m) /\
  penalty_per_failed_guess m = pen /\
  (0 <= failed_guesses m)%Z.

End Metrics.

(** ** [endpoints.py]: resolution of the common endpoints *)

Module Endpoint.

Record t : Type := mk {
  base_url : string;
  model : string;
  api_key : option string
}.

Record info : Type := mk_info {
  info_base_url : string;
  info_api_key : string
}.

Definition DEFAULTS : gmap string info :=
  <["oai" := mk_info "https://api.openai.com/" "OPENAI_API_KEY"]>
  (<["groq" := mk_info "https://api.groq.com/openai/" "GROQ_API_KEY"]> ∅).

(** [__post_init__], with [os.environ] as [env]. *)
Definition post_init (env : gmap string string) (self : t) : result t :=
  match DEFAULTS !! base_url self with
  | Some i =>
      let self1 := mk (info_base_url i) (model self) (api_key self) in
      let api_key_env_var := info_api_key i in
      match env !! api_key_env_var with
      | None => Raise (OSError ("API Key " ++ api_key_env_var ++ " not found!"))
      | Some v => Ok (mk (base_url self1) (model self1) (Some v))
      end
  | None => Ok self
  end.

(** [Endpoint(base_url, model, api_key)]: the generated [__init__]
    stores the fields and calls [__post_init__]. *)
Definition new (env : gmap string string)
           (base_url model : string) (api_key : option string) : result t :=
  post_init env (mk base_url model api_key).

Definition CHAT_COMPLETION : string := "v1/chat/completions".

(** The property [chat_url]. *)
Definition chat_url (self : t) : string :=
  base_url self ++ "/" ++ CHAT_COMPLETION.

(** *** [respond]

    What [response.json()] hands back.  A number is kept as its text: the
    code never computes with one. *)
#[warnings="-register-all"]
Inductive Json : Type :=
| JNull
| JBool (b : bool)
| JNum (text : string)
| JStr (s : string)
| JList (l : list Json)
| JDict (d : gmap string Json).

(** One message of the chat. *)
Record ChatMessage : Type := mk_chat { chat_role : string; chat_content : string }.

(** The arguments of [requests.post]: the URL, the headers in the order
    they are set, and the [json] body with its three entries. *)
Record Request : Type := mk_request {
  req_url : string;
  req_headers : list (string * string);
  req_model : string;
  req_messages : list ChatMessage;
  req_stream : bool
}.

(** What a POST comes to: [requests.post] raises, or there is a response
    whose [json()] gives a value or raises. *)
Inductive PostOutcome : Type :=
| PostRaises (e : exn)
| Response (json : result Json).

(** [key in x] for a string [key]. *)
Definition json_contains (key : string) (x : Json) : result bool :=
  match x with
  | JDict d => Ok (bool_decide (is_Some (d !! key)))
  | JList l =>
      Ok (existsb (fun v => match v with JStr s => String.eqb s key | _ => false end) l)
  | JStr s => Ok (PyStr.contains key s)
  | JNull | JBool _ | JNum _ => Raise (OtherError "TypeError")
  end.

(** [x[key]] for a string [key]. *)
Definition json_item (key : string) (x : Json) : result Json :=
  match x with
  | JDict d =>
      match d !! key with
      | Some v => Ok v
      | None => Raise (OtherError "KeyError")
      end
  | _ => Raise (OtherError "TypeError")
  end.

(** [x[0]]: the keys of a parsed JSON object are strings, so an object has
    no entry [0]. *)
Definition json_first (x : Json) : result Json :=
  match x with
  | JList (v :: _) => Ok v
  | JList [] => Raise (IndexError "list index out of range")
  | JStr (String c _) => Ok (JStr (String c EmptyString))
  | JStr EmptyString => Raise (IndexError "string index out of range")
  | JDict _ => Raise (OtherError "KeyError")
  | JNull | JBool _ | JNum _ => Raise (OtherError "TypeError")
  end.

Definition result_bind {A B : Type} (r : result A) (k : A -> result B) : result B :=
  match r with
  | Ok a => k a
  | Raise e => Raise e
  end.

(** The request [respond] builds, lines 115 to 127. *)
Definition build_request (self : t) (message : string) (system_prompt : option string)
  : Request :=
  let headers := [("Content-Type", "application/json")] in
  let headers :=
    match api_key self with
    | Some k => (headers ++ [("Authorization", ("Bearer " ++ k)%string)])%list
    | None => headers
    end in
  let messages := [mk_chat "user" message] in
  let messages :=
    match system_prompt with
    | Some p => mk_chat "system" p :: messages
    | None => messages
    end in
  mk_request (chat_url self) headers (model self) messages false.

Section Respond.

(** The network is outside the program; so is the text Python prints for
    a JSON value inside an f-string. *)
Variable Net : Type.
Variable post : Net -> Request -> PostOutcome * Net.
Variable py_str : Json -> string.

(** Lines 136 to 141: what [respond] makes of the parsed response. *)
Definition read_response (json_response : Json) : result Json :=
  result_bind (json_contains "error" json_response) (fun has_error =>
  if has_error then
    result_bind (json_item "error" json_response) (fun err =>
    Raise (ValueError ("Error in endpoint request!: " ++ py_str err)))
  else
    result_bind (json_contains "choices" json_response) (fun has_choices =>
    if negb has_choices then
      Raise (ValueError ("Malformed response from endpoint!: Got: " ++ py_str json_response))
    else
      result_bind (json_item "choices" json_response) (fun choices =>
      result_bind (json_first choices) (fun choice =>
      result_bind (json_item "message" choice) (fun msg =>
      json_item "content" msg))))).

Definition respond (self : t) (message : string) (system_prompt : option string)
           (net : Net) : result Json * Net :=
  let (outcome, net') := post net (build_request self message system_prompt) in
  match outcome with
  | PostRaises e => (Raise e, net')
  | Response (Raise e) => (Raise e, net')
  | Response (Ok json_response) => (read_response json_response, net')
  end.

End Respond.

(** A network that answers every request with the same response. *)
Definition constant_net (outcome : PostOutcome) (net : unit) (r : Request)
  : PostOutcome * unit := (outcome, tt).

(** The text of a JSON value is not modelled: a placeholder. *)
Definition no_text (v : Json) : string := "...".

End Endpoint.

(** ** [solvers/gvc_2.py]: the three agents and the solver *)

Module GVCSolver.
Import PyStr.

Inductive Agent : Type := GuesserAgent | ValidatorAgent | ConsensusAgent.

(** The [name] and [system_message] given to each [ConversableAgent] in
    [initialize_agents]. *)
Definition agent_name (a : Agent) : string :=
  match a with
  | GuesserAgent => "GuesserAgent"
  | ValidatorAgent => "ValidatorAgent"
  | ConsensusAgent => "ConsensusAgent"
  end.

Definition system_message (a : Agent) : string :=
  match a with
  | GuesserAgent =>
      "You are a Guesser Agent in a word game. Given a list of words, " ++
      "propose a group of 4 related words and a corresponding category."
  | ValidatorAgent =>
      "You are a Validator Agent. Given a list of words and a category, " ++
      "identify a group of 4 words that fit the category."
  | ConsensusAgent =>
      "You are a Consensus Agent. Compare two groups of words and determine if they contain exactly the same words, regardless of their order. Respond with 'Consensus reached' if both groups have identical words, or 'Consensus not reached' otherwise."
  end.

(** One entry of the [messages] list of [generate_reply]. *)
Record Message : Type := mk_message { role : string; content : string }.

(** What [agent.generate_reply] hands back: a [str], a [dict] (of which
    only the entry ['reply'] is read, and only when it is a [str]),
    anything else, or an exception of the library. *)
Inductive Reply : Type :=
| ReplyStr (s : string)
| ReplyDict (reply : option string)
| ReplyOther
| ReplyRaises (e : exn).

(** One call of [generate_reply], as the solver issues it. *)
Record Query : Type := mk_query { q_agent : Agent; q_messages : list Message }.

(** [self.guesses]: category -> word groups, in insertion order. *)
Definition Store : Type := list (string * list (list string)).

(** [category in guesses] *)
Definition store_contains (guesses : Store) (category : string) : bool :=
  existsb (fun entry => String.eqb (fst entry) category) guesses.

(** [guesses[category].append(group)]; the key is present where the
    solver does this. *)
Fixpoint store_append (guesses : Store) (category : string) (group : list string)
  : Store :=
  match guesses with
  | [] => []
  | (k, word_groups) :: rest =>
      if String.eqb k category then (k, (word_groups ++ [group])%list) :: rest
      else (k, word_groups) :: store_append rest category group
  end.

(** Lines 192 to 194, and again 200 to 202:
    [if c not in self.guesses: self.guesses[c] = []] and then
    [self.guesses[c].append(tuple(group))]. *)
Definition record_guess (guesses : Store) (category : string) (group : list string)
  : Store :=
  let guesses1 :=
    if negb (store_contains guesses category)
    then (guesses ++ [(category, [])])%list else guesses in
  store_append guesses1 category group.

(** The keys are those of a dict, no list of groups is empty. *)
Definition well_kept (g : Store) : Prop :=
  NoDup (List.map fst g) /\
  Forall (fun entry : string * list (list string) => snd entry <> []) g.

(** *** Reply handling *)

Definition extract_reply_str (reply : Reply) : option string :=
  match reply with
  | ReplyStr s => Some s
  | ReplyDict (Some extracted_reply) => Some extracted_reply
  | ReplyDict None => None
  | ReplyOther => None
  | ReplyRaises _ => None
  end.

Definition parse_guesser_reply (reply : string) : result (list string * string) :=
  let lines := split newline (strip reply) in
  let group_line := next_or_empty (startswith "Group:") lines in
  let category_line := next_or_empty (startswith "Category:") lines in
  if is_empty group_line && is_empty category_line then
    Raise (ValueError "GuesserAgent's reply is missing both 'Group' and 'Category'.")
  else if is_empty group_line then
    Raise (ValueError "GuesserAgent's reply is missing 'Group'.")
  else if is_empty category_line then
    Raise (ValueError "GuesserAgent's reply is missing 'Category'.")
  else
    let group := List.map strip (split comma (replace "Group:" "" group_line)) in
    let category := strip (replace "Category:" "" category_line) in
    if negb (length group =? 4)%nat then
      Raise (ValueError ("GuesserAgent's group contains " ++ of_nat (length group)
                         ++ " words; expected exactly 4."))
    else Ok (group, category).

Definition parse_validator_reply (reply : string) : result (list string) :=
  let lines := split newline (strip reply) in
  let group_line := next_or_empty (startswith "Group:") lines in
  if is_empty group_line then
    Raise (ValueError "ValidatorAgent's reply is missing 'Group'.")
  else
    let group := List.map strip (split comma (replace "Group:" "" group_line)) in
    if negb (length group =? 4)%nat then
      Raise (ValueError "ValidatorAgent's group does not contain exactly 4 words.")
    else Ok group.

Definition parse_consensus_reply (reply : string) : bool :=
  let normalized := lower (strip reply) in
  if contains "consensus reached" normalized then true
  else if contains "consensus not reached" normalized then false
  else false.

(** *** Prompts *)

Definition word_groups_str (word_groups : list (list string)) : string :=
  join "; " (List.map (fun group => "(" ++ join ", " group ++ ")") word_groups).

Definition feedback_line (entry : string * list (list string)) : string :=
  "  * " ++ fst entry ++ ": " ++ word_groups_str (snd entry) ++ nl.

Definition do_not_repeat : string :=
  "- Be aware that the following category and word group pairs either do not match or the category isn't specific enough. Do not repeat them!:" ++ nl.

(** The elements of [set(entire_game_board) - set(remaining_words)]. *)
Definition successful_words (entire_game_board remaining_words : list string)
  : list string :=
  List.nodup string_dec
    (List.filter (fun w => negb (existsb (String.eqb w) remaining_words))
                 entire_game_board).

Definition guesser_prompt (feedback remaining_str : string) (group_size : Z)
  : string :=
  feedback ++ nl ++
  "Words: " ++ remaining_str ++ nl ++ nl ++
  "**Objective:**" ++ nl ++
  "Find a group of " ++ of_Z group_size ++ " related words from the list above and provide a specific category that unambiguously describes the relationship between these words. The category should be as precise as possible to avoid any confusion with other words or potential categories." ++ nl ++ nl ++
  "**Guidelines:**" ++ nl ++
  "- Categories must be more specific than broad classifications like 'Names', 'Verbs', or '5-Letter Words'." ++ nl ++
  "- Each word in the group should clearly fit the category without overlapping into multiple categories. Be aware of common phrases, word play, and words with multiple meanings." ++ nl ++
  "- Avoid categories that are too vague or general and might encompass other words. Categories should be as specific as possible." ++ nl ++ nl ++
  "**Examples:**" ++ nl ++
  "1. **Group:** Bass, Flounder, Salmon, Trout" ++ nl ++
  "   **Category:** Fish" ++ nl ++ nl ++
  "2. **Group:** Ant, Drill, Island, Opal" ++ nl ++
  "   **Category:** Fire ___" ++ nl ++ nl ++
  "**Format Your Response As Follows:**" ++ nl ++
  "```" ++ nl ++
  "Group: word1, word2, word3, word4" ++ nl ++
  "Category: category_name" ++ nl ++
  "```" ++ nl ++
  "Ensure there is no additional text or explanation beyond the specified format.".

Definition validator_prompt (feedback remaining_str guesser_category : string)
  : string :=
  feedback ++ nl ++
  "**Words:** " ++ remaining_str ++ nl ++
  "**Category:** " ++ guesser_category ++ nl ++ nl ++
  "**Objective:**" ++ nl ++
  "Identify the four words from the list above that belong to the specified category. Ensure that each selected word clearly fits the category without ambiguity." ++ nl ++ nl ++
  "**Guidelines:**" ++ nl ++
  "- The category is already provided and is specific. Focus solely on selecting the words that best match this category. Be aware of word play and words with multiple meanings." ++ nl ++
  "- Each word should unambiguously fit the category. Avoid selecting words that could belong to multiple categories unless they are a perfect fit." ++ nl ++
  "- Ensure that exactly four words are selected. Do not include more or fewer words." ++ nl ++
  "- Avoid using additional explanations or commentary. Only provide the required output in the specified format." ++ nl ++ nl ++
  "**Examples:**" ++ nl ++
  "1. **Category:** Fish" ++ nl ++
  "   **Words:** Bass, Flounder, Salmon, Trout, Ant, Drill, Island, Opal" ++ nl ++
  "   **Group:** Bass, Flounder, Salmon, Trout" ++ nl ++ nl ++
  "2. **Category:** Fire ___" ++ nl ++
  "   **Words:** Ant, Drill, Island, Opal, Fire, Water, Earth, Air" ++ nl ++
  "   **Group:** Ant, Drill, Island, Opal" ++ nl ++ nl ++
  "**Format Your Response As Follows:**" ++ nl ++
  "```" ++ nl ++
  "Group: word1, word2, word3, word4" ++ nl ++
  "```" ++ nl ++
  "Ensure there is no additional text or explanation beyond the specified format.".

Definition consensus_prompt (guesser_group validator_group : list string) : string :=
  "Guesser Group: " ++ join ", " guesser_group ++ nl ++
  "Validator Group: " ++ join ", " validator_group ++ nl ++
  "Determine if both groups contain exactly the same words, regardless of order." ++ nl ++
  "Respond with 'Consensus reached' if they are identical, or 'Consensus not reached' otherwise.".

(** [if l:] for a list or a dict: it is not empty. *)
Definition truthy {A : Type} (l : list A) : bool :=
  match l with [] => false | _ => true end.

Definition max_retries : nat := 15.

Definition no_consensus_message : string :=
  "Consensus not reached after maximum retries. Unable to make a guess.".

(** *** Canned agents, for running the solver on an example

    The replies are handed out in the order given, whoever asks; when
    they run out the agent hands back [None]. *)
Definition Script : Type := list Reply.

Definition scripted (w : Script) (a : Agent) (messages : list Message)
  : Reply * Script :=
  match w with
  | [] => (ReplyOther, [])
  | r :: w' => (r, w')
  end.

(** The text of a list of plain words, as Python prints it. *)
Definition plain_list_str (l : list string) : string :=
  "['" ++ join "', '" l ++ "']".

(** A board, and replies of the three agents on it. *)
Definition demo_remaining : list string :=
  ["Bass"; "Flounder"; "Salmon"; "Trout"; "Ant"; "Drill"; "Island"; "Opal"].

Definition demo_board : list string :=
  (demo_remaining ++ ["Jack"; "Queen"; "King"; "Ace"])%list.

Definition fish_group : list string := ["Bass"; "Flounder"; "Salmon"; "Trout"].

Definition other_group : list string := ["Bass"; "Flounder"; "Salmon"; "Ant"].

Definition fish_reply : Reply :=
  ReplyStr ("Group: Bass, Flounder, Salmon, Trout" ++ nl ++ "Category: Fish").

Definition fish_validation : Reply := ReplyStr "Group: Bass, Flounder, Salmon, Trout".

Definition other_validation : Reply := ReplyStr "Group: Bass, Flounder, Salmon, Ant".

Definition agreed : Reply := ReplyStr "Consensus reached".

Definition disagreed : Reply := ReplyStr "Consensus not reached".

Definition chatter : Reply := ReplyStr "I would go with Bass and Flounder.".

(** Agents that give the same reply to every query. *)
Definition constant_agents (r : Reply) (w : unit) (a : Agent) (messages : list Message)
  : Reply * unit := (r, tt).

(** *** Lines of a reply

    The lines the parsers look at, and the first of them that starts
    with a given word. *)
Definition reply_lines (reply : string) : list string :=
  split newline (strip reply).

Definition no_line_starts (p : string) (lines : list string) : Prop :=
  forall l, In l lines -> startswith p l = false.

Definition first_line_starting (p : string) (lines : list string) (l : string)
  : Prop :=
  exists before after,
    lines = (before ++ l :: after)%list /\ startswith p l = true /\
    no_line_starts p before.

(** The pieces between the commas of a group line, once every
    occurrence of [Group:] is taken out. *)
Definition comma_split (group_line : string) : list string :=
  split comma (replace "Group:" "" group_line).

(** *** Replies in the format the prompts ask for

    The reply the guesser prompt asks for (lines 123 to 127) and the one
    the validator prompt asks for (lines 160 to 163). *)
Definition expected_guesser_reply (words : list string) (category : string) : string :=
  "Group: " ++ join ", " words ++ nl ++ "Category: " ++ category.

Definition expected_validator_reply (words : list string) : string :=
  "Group: " ++ join ", " words.

Definition colon : ascii := ascii_of_nat 58.

(** [c in s] for one character, and [s.count(c)]. *)
Fixpoint has_char (c : ascii) (s : string) : bool :=
  match s with
  | EmptyString => false
  | String a s' => Ascii.eqb a c || has_char c s'
  end.

Fixpoint count_char (c : ascii) (s : string) : nat :=
  match s with
  | EmptyString => 0
  | String a s' => (if Ascii.eqb a c then 1 else 0) + count_char c s'
  end.

(** A word as the game has them: not empty, no blank at either end, no
    comma, colon or line break inside. *)
Definition plain_word (w : string) : Prop :=
  w <> "" /\ strip w = w /\
  has_char comma w = false /\ has_char colon w = false /\
  has_char newline w = false.

(** A category: no blank at either end, no colon or line break inside. *)
Definition plain_category (c : string) : Prop :=
  strip c = c /\ has_char colon c = false /\ has_char newline c = false.

(** *** What a query says

    The text sent as the user's message of a query. *)
Definition user_content (q : Query) : list string :=
  List.map content
           (List.filter (fun m => String.eqb (role m) "user") (q_messages q)).

(** The feedback text names a category with a group of four words among
    the pairs not to repeat: after the heading of the note there is a line
    that reads ["  * category: ...; (w1, w2, w3, w4); ..."]. *)
Definition names_pair (feedback category w1 w2 w3 w4 : string) : Prop :=
  exists (lines_before : string) (groups_before groups_after : list string)
         (rest : string),
    feedback =
      "Note:" ++ nl ++
      "- Be aware that the following category and word group pairs either do not match or the category isn't specific enough. Do not repeat them!:" ++ nl ++
      lines_before ++
      "  * " ++ category ++ ": " ++
      String.concat "; "
        (groups_before
           ++ ("(" ++ w1 ++ ", " ++ w2 ++ ", " ++ w3 ++ ", " ++ w4 ++ ")")%string
           :: groups_after)%list
      ++ nl ++ rest.

(** *** The solver over its agents

    The agents are outside the program: [generate_reply] is any function
    of the state of the outside world, of the agent asked and of the
    messages sent.  Python fixes no order for the elements of a set, so
    the text that [f"{successful}"] prints for a list made from a set is
    a parameter too, [successful_str].  Logging and [print] write nothing
    the solver reads back and are left out. *)
Section Model.

Variable World : Type.
Variable generate_reply : World -> Agent -> list Message -> Reply * World.
Variable successful_str : list string -> string.

(** The solver object ([guesses]), the outside world, and the calls of
    [generate_reply] issued so far, oldest first; the last is kept for
    stating what an attempt asks, the code never reads it. *)
Record State : Type := mk_state {
  guesses : Store;
  world : World;
  queries : list Query
}.

(** Code that reads and writes the state and may raise. *)
Definition M (A : Type) : Type := State -> result A * State.

Definition ret {A : Type} (a : A) : M A := fun s => (Ok a, s).

Definition raise {A : Type} (e : exn) : M A := fun s => (Raise e, s).

Definition bind {A B : Type} (m : M A) (k : A -> M B) : M B :=
  fun s =>
    match m s with
    | (Ok a, s') => k a s'
    | (Raise e, s') => (Raise e, s')
    end.

Definition lift {A : Type} (r : result A) : M A := fun s => (r, s).

Definition get_guesses : M Store := fun s => (Ok (guesses s), s).

Definition set_guesses (g : Store) : M unit :=
  fun s => (Ok tt, mk_state g (world s) (queries s)).

(** [try: ... except ValueError as e: logger.error(...); raise] *)
Definition log_and_reraise {A : Type} (m : M A) : M A :=
  fun s =>
    match m s with
    | (Raise (ValueError msg), s') => (Raise (ValueError msg), s')
    | other => other
    end.

Notation "'let*' x ':=' m 'in' k" := (bind m (fun x => k))
  (at level 10, x name, m at level 100, k at level 200).
Notation "'do*' m 'in' k" := (bind m (fun _ => k))
  (at level 10, m at level 100, k at level 200).

Definition reset : M unit := set_guesses [].

Definition _get_agent_reply (agent : Agent) (prompt : string) : M string :=
  fun s =>
    let messages := [mk_message "system" (system_message agent);
                     mk_message "user" prompt] in
    let (reply, w) := generate_reply (world s) agent messages in
    let s' := mk_state (guesses s) w (queries s ++ [mk_query agent messages])%list in
    match reply with
    | ReplyRaises e => (Raise e, s')
    | _ =>
        match extract_reply_str reply with
        | Some reply_str =>
            if is_empty reply_str
            then (Raise (ValueError (agent_name agent ++ " failed to generate a valid reply.")), s')
            else (Ok reply_str, s')
        | None =>
            (Raise (ValueError (agent_name agent ++ " failed to generate a valid reply.")), s')
        end
    end.

(** Lines 95 to 106. *)
Definition build_feedback (guesses : Store) (successful : list string) : string :=
  let feedback := "" in
  if truthy guesses then
    let feedback := feedback ++ "Note:" ++ nl in
    let feedback :=
      if truthy guesses then
        List.fold_left (fun fb entry => fb ++ feedback_line entry) guesses
                       (feedback ++ do_not_repeat)
      else feedback in
    if truthy successful then
      feedback ++ "- Ensure that your guessed category does not encompass any of these words: "
               ++ successful_str successful ++ nl
    else feedback
  else feedback.

(** What one attempt has in hand when the three agents have answered. *)
Record Negotiation : Type := mk_negotiation {
  guesser_group : list string;
  guesser_category : string;
  validator_group : list string;
  consensus_result : bool
}.

(** Step 1, lines 108 to 139. *)
Definition ask_guesser (feedback remaining_str : string) (group_size : Z)
  : M (list string * string) :=
  log_and_reraise
    (let* guesser_reply := _get_agent_reply GuesserAgent
                        (guesser_prompt feedback remaining_str group_size) in
     lift (parse_guesser_reply guesser_reply)).

(** Step 2, lines 141 to 175. *)
Definition ask_validator (feedback remaining_str guesser_category : string)
  : M (list string) :=
  log_and_reraise
    (let* validator_reply := _get_agent_reply ValidatorAgent
                          (validator_prompt feedback remaining_str guesser_category) in
     lift (parse_validator_reply validator_reply)).

(** Step 3, lines 177 to 188. *)
Definition ask_consensus (guesser_group validator_group : list string) : M bool :=
  let* consensus_reply := _get_agent_reply ConsensusAgent
                       (consensus_prompt guesser_group validator_group) in
  ret (parse_consensus_reply consensus_reply).

(** The feedback of an attempt, from the store as the attempt finds it. *)
Definition attempt_feedback (remaining_words entire_game_board : list string)
  : M string :=
  let* g := get_guesses in
  ret (build_feedback g (successful_words entire_game_board remaining_words)).

(** Steps 1 and 2 of the loop body. *)
Definition propose_and_validate
           (remaining_words entire_game_board : list string) (group_size : Z)
  : M (list string * string * list string) :=
  let remaining_str := join ", " remaining_words in
  let* feedback := attempt_feedback remaining_words entire_game_board in
  let* gc := ask_guesser feedback remaining_str group_size in
  let* validator_group := ask_validator feedback remaining_str (snd gc) in
  ret (fst gc, snd gc, validator_group).

(** Lines 90 to 188 of the loop body: the three steps. *)
Definition negotiate
           (remaining_words entire_game_board : list string) (group_size : Z)
  : M Negotiation :=
  let* gcv := propose_and_validate remaining_words entire_game_board group_size in
  let* consensus_result := ask_consensus (fst (fst gcv)) (snd gcv) in
  ret (mk_negotiation (fst (fst gcv)) (snd (fst gcv)) (snd gcv) consensus_result).

Definition record (guesser_category : string) (guesser_group : list string)
  : M unit :=
  let* g := get_guesses in
  set_guesses (record_guess g guesser_category guesser_group).

(** Lines 190 to 205 of the loop body: [Some v] is [return v], [None]
    falls through to the next iteration. *)
Definition conclude (attempt : nat) (n : Negotiation)
  : M (option (list string * string)) :=
  if consensus_result n then
    do* record (guesser_category n) (guesser_group n) in
    ret (Some (guesser_group n, guesser_category n))
  else
    do* record (guesser_category n) (guesser_group n) in
    if (attempt =? max_retries)%nat
    then raise (ValueError no_consensus_message)
    else ret None.

Definition attempt_body (remaining_words entire_game_board : list string)
           (group_size : Z) (attempt : nat)
  : M (option (list string * string)) :=
  let* n := negotiate remaining_words entire_game_board group_size in
  conclude attempt n.

(** [for attempt in attempts: body] followed by [orelse], the code
    after the loop. *)
Fixpoint for_attempts {R : Type} (attempts : list nat)
         (body : nat -> M (option R)) (orelse : M R) : M R :=
  match attempts with
  | [] => orelse
  | attempt :: rest =>
      let* r := body attempt in
      match r with
      | Some v => ret v
      | None => for_attempts rest body orelse
      end
  end.

Definition guess (remaining_words entire_game_board : list string)
           (group_size : Z) (metrics : option Metrics.t)
  : M (list string * string) :=
  let metrics := match metrics with None => Metrics.default | Some m => m end in
  for_attempts (List.seq 1 max_retries)
               (attempt_body remaining_words entire_game_board group_size)
               (raise (ValueError no_consensus_message)).

(** *** Attempts, calls and sessions

    An attempt is one execution of the loop body: the arguments of the
    call it belongs to, the value of the loop variable and the state it
    starts from.  What it does is read off the code above. *)
Record Attempt : Type := mk_attempt {
  att_remaining : list string;
  att_entire : list string;
  att_group_size : Z;
  att_number : nat;
  att_start : State
}.

Definition att_run (a : Attempt) : result (option (list string * string)) * State :=
  attempt_body (att_remaining a) (att_entire a) (att_group_size a)
               (att_number a) (att_start a).

Definition att_outcome (a : Attempt) : result (option (list string * string)) :=
  fst (att_run a).

Definition att_end (a : Attempt) : State := snd (att_run a).

Definition att_feedback (a : Attempt) : string :=
  build_feedback (guesses (att_start a))
                 (successful_words (att_entire a) (att_remaining a)).

Definition att_remaining_str (a : Attempt) : string :=
  join ", " (att_remaining a).

(** Steps 1 and 2 of the attempt, and steps 1 to 3. *)
Definition att_proposal (a : Attempt) : result (list string * string * list string) :=
  fst (propose_and_validate (att_remaining a) (att_entire a) (att_group_size a)
                            (att_start a)).

Definition att_negotiation (a : Attempt) : result Negotiation :=
  fst (negotiate (att_remaining a) (att_entire a) (att_group_size a) (att_start a)).

(** The calls of [generate_reply] the attempt adds to the log. *)
Definition att_queries (a : Attempt) : list Query :=
  drop (length (queries (att_start a))) (queries (att_end a)).


(** The attempt ended without consensus for this pair. *)
Definition rejected (a : Attempt) (category : string) (group : list string) : Prop :=
  exists n, att_negotiation a = Ok n /\ consensus_result n = false /\
            guesser_category n = category /\ guesser_group n = group.

(** The attempt got a verdict of the consensus agent for this pair. *)
Definition judged (a : Attempt) (category : string) (group : list string) : Prop :=
  exists n, att_negotiation a = Ok n /\
            guesser_category n = category /\ guesser_group n = group.

(** The attempts a [for] loop over [numbers] executes from [s]: the
    loop goes on after an attempt exactly when the body falls through. *)
Fixpoint attempts_of (remaining_words entire_game_board : list string)
         (group_size : Z) (numbers : list nat) (s : State) : list Attempt :=
  match numbers with
  | [] => []
  | k :: rest =>
      let a := mk_attempt remaining_words entire_game_board group_size k s in
      a :: match att_outcome a with
           | Ok None =>
               attempts_of remaining_words entire_game_board group_size rest (att_end a)
           | _ => []
           end
  end.

(** The attempts of one call of [guess]. *)
Definition guess_attempts (remaining_words entire_game_board : list string)
           (group_size : Z) (s : State) : list Attempt :=
  attempts_of remaining_words entire_game_board group_size
              (List.seq 1 max_retries) s.

(** The same solver and log in another state of the outside world. *)
Definition with_world (s : State) (w : World) : State :=
  mk_state (guesses s) w (queries s).

(** A session: calls of [guess] on one solver with no [reset] between
    them; between two calls the outside world may have moved on.  The
    list holds the attempts of all the calls, in order. *)
Inductive session : State -> list Attempt -> State -> Prop :=
| session_start s : session s [] s
| session_guess s atts s1 w remaining_words entire_game_board group_size metrics :
    session s atts s1 ->
    session s
            (atts ++ guess_attempts remaining_words entire_game_board group_size
                                    (with_world s1 w))%list
            (snd (guess remaining_words entire_game_board group_size metrics
                        (with_world s1 w))).

(** The pair is in the store. *)
Definition store_has (g : Store) (category : string) (group : list string) : Prop :=
  exists word_groups, In (category, word_groups) g /\ In group word_groups.

(** The feedback block lists the category with the group among the
    pairs not to repeat. *)
Definition lists_pair (feedback category : string) (group : list string) : Prop :=
  exists (before : Store) (groups_before groups_after : list (list string))
         (rest : string),
    feedback =
      "Note:" ++ nl ++ do_not_repeat
      ++ String.concat "" (List.map feedback_line before)
      ++ "  * " ++ category ++ ": "
      ++ word_groups_str (groups_before ++ group :: groups_after)%list ++ nl
      ++ rest.

(** The user prompt and the agent of a query. *)
Definition user_query (agent : Agent) (prompt : string) : Query :=
  mk_query agent [mk_message "system" (system_message agent);
                  mk_message "user" prompt].

(** What the three agents said in the attempt and what the parsers made
    of it: each reply is the answer to the prompt built from the
    replies before it. *)
Definition transcript (a : Attempt)
           (guesser_reply validator_reply consensus_reply : string)
           (n : Negotiation) : Prop :=
  exists s1 s2 s3,
    _get_agent_reply GuesserAgent
      (guesser_prompt (att_feedback a) (att_remaining_str a) (att_group_size a))
      (att_start a) = (Ok guesser_reply, s1) /\
    parse_guesser_reply guesser_reply
      = Ok (guesser_group n, guesser_category n) /\
    _get_agent_reply ValidatorAgent
      (validator_prompt (att_feedback a) (att_remaining_str a) (guesser_category n))
      s1 = (Ok validator_reply, s2) /\
    parse_validator_reply validator_reply = Ok (validator_group n) /\
    _get_agent_reply ConsensusAgent
      (consensus_prompt (guesser_group n) (validator_group n))
      s2 = (Ok consensus_reply, s3) /\
    parse_consensus_reply consensus_reply = consensus_result n.

(** The three queries of a whole attempt. *)
Definition three_queries (a : Attempt) (guesser_group : list string)
           (guesser_category : string) (validator_group : list string)
  : list Query :=
  [ user_query GuesserAgent
      (guesser_prompt (att_feedback a) (att_remaining_str a) (att_group_size a));
    user_query ValidatorAgent
      (validator_prompt (att_feedback a) (att_remaining_str a) guesser_category);
    user_query ConsensusAgent
      (consensus_prompt guesser_group validator_group) ].

(** What an attempt makes of its negotiation: the value of the body. *)
Definition verdict_outcome (attempt : nat) (n : Negotiation)
  : result (option (list string * string)) :=
  if consensus_result n then Ok (Some (guesser_group n, guesser_category n))
  else if (attempt =? max_retries)%nat
       then Raise (ValueError no_consensus_message)
       else Ok None.

(** The runs of the loop of [guess]: the numbers still to go, the state,
    the attempts executed and what the call comes to. *)
Inductive loop_run (remaining_words entire_game_board : list string)
          (group_size : Z)
  : list nat -> State -> list Attempt
    -> result (list string * string) * State -> Prop :=
| run_exhausted s :
    loop_run remaining_words entire_game_board group_size [] s []
             (Raise (ValueError no_consensus_message), s)
| run_return k rest s v :
    let a := mk_attempt remaining_words entire_game_board group_size k s in
    att_outcome a = Ok (Some v) ->
    loop_run remaining_words entire_game_board group_size (k :: rest) s [a]
             (Ok v, att_end a)
| run_raise k rest s e :
    let a := mk_attempt remaining_words entire_game_board group_size k s in
    att_outcome a = Raise e ->
    loop_run remaining_words entire_game_board group_size (k :: rest) s [a]
             (Raise e, att_end a)
| run_next k rest s atts r :
    let a := mk_attempt remaining_words entire_game_board group_size k s in
    att_outcome a = Ok None ->
    loop_run remaining_words entire_game_board group_size rest (att_end a) atts r ->
    loop_run remaining_words entire_game_board group_size (k :: rest) s (a :: atts) r.

(** The stores a list of attempts goes through, when each attempt
    starts from the store the one before it left. *)
Inductive chain : Store -> list Attempt -> Store -> Prop :=
| chain_nil g : chain g [] g
| chain_cons a atts g' :
    chain (guesses (att_end a)) atts g' ->
    chain (guesses (att_start a)) (a :: atts) g'.

(** The last line of the block, on the words already solved. *)
Definition successful_line (successful : list string) : string :=
  if truthy successful then
    "- Ensure that your guessed category does not encompass any of these words: "
    ++ successful_str successful ++ nl
  else "".

(** The attempt got as far as a verdict of the consensus agent. *)
Definition has_verdict (a : Attempt) : bool :=
  match att_negotiation a with
  | Ok _ => true
  | Raise _ => false
  end.

(** All the word groups of the store, category after category. *)
Definition stored_groups (g : Store) : list (list string) :=
  List.concat (List.map snd g).

(** ** Properties of the solver *)

Arguments guesser_prompt : simpl never.
Arguments validator_prompt : simpl never.
Arguments consensus_prompt : simpl never.
Arguments system_message : simpl never.

(** *** The monad *)

Lemma log_and_reraise_id {A : Type} (m : M A) (s : State) :
  log_and_reraise m s = m s.
Proof.
  unfold log_and_reraise. destruct (m s) as [[v | e] s']; [reflexivity |].
  destruct e; reflexivity.
Qed.

Lemma reset_empties s : guesses (snd (reset s)) = [].
Proof. reflexivity. Qed.

(** *** One query *)

Lemma get_agent_reply_state agent prompt s :
  exists w,
    snd (_get_agent_reply agent prompt s)
    = mk_state (guesses s) w (queries s ++ [user_query agent prompt])%list.
Proof.
  unfold _get_agent_reply, user_query.
  destruct (generate_reply (world s) agent _) as [reply w].
  exists w. destruct reply as [r | [r |] | | e]; simpl; try reflexivity;
    destruct (is_empty r); reflexivity.
Qed.

Lemma get_agent_reply_inv agent prompt s r s' :
  _get_agent_reply agent prompt s = (r, s') ->
  guesses s' = guesses s /\
  queries s' = (queries s ++ [user_query agent prompt])%list.
Proof.
  intros H. destruct (get_agent_reply_state agent prompt s) as [w Hw].
  rewrite H in Hw. simpl in Hw. subst s'. split; reflexivity.
Qed.

(** *** The three steps *)

Lemma ask_guesser_eq fb rs gs s :
  ask_guesser fb rs gs s =
  match _get_agent_reply GuesserAgent (guesser_prompt fb rs gs) s with
  | (Ok reply, s1) => (parse_guesser_reply reply, s1)
  | (Raise e, s1) => (Raise e, s1)
  end.
Proof.
  unfold ask_guesser. rewrite log_and_reraise_id. unfold bind, lift.
  destruct (_get_agent_reply _ _ s) as [[reply | e] s1]; reflexivity.
Qed.

Lemma ask_validator_eq fb rs c s :
  ask_validator fb rs c s =
  match _get_agent_reply ValidatorAgent (validator_prompt fb rs c) s with
  | (Ok reply, s1) => (parse_validator_reply reply, s1)
  | (Raise e, s1) => (Raise e, s1)
  end.
Proof.
  unfold ask_validator. rewrite log_and_reraise_id. unfold bind, lift.
  destruct (_get_agent_reply _ _ s) as [[reply | e] s1]; reflexivity.
Qed.

Lemma ask_consensus_eq g vg s :
  ask_consensus g vg s =
  match _get_agent_reply ConsensusAgent (consensus_prompt g vg) s with
  | (Ok reply, s1) => (Ok (parse_consensus_reply reply), s1)
  | (Raise e, s1) => (Raise e, s1)
  end.
Proof.
  unfold ask_consensus, bind, ret.
  destruct (_get_agent_reply _ _ s) as [[reply | e] s1]; reflexivity.
Qed.

Lemma propose_and_validate_eq rem ent gs s :
  propose_and_validate rem ent gs s =
  match ask_guesser (build_feedback (guesses s) (successful_words ent rem))
                    (join ", " rem) gs s with
  | (Ok gc, s1) =>
      match ask_validator (build_feedback (guesses s) (successful_words ent rem))
                          (join ", " rem) (snd gc) s1 with
      | (Ok vg, s2) => (Ok (fst gc, snd gc, vg), s2)
      | (Raise e, s2) => (Raise e, s2)
      end
  | (Raise e, s1) => (Raise e, s1)
  end.
Proof.
  unfold propose_and_validate, attempt_feedback, get_guesses, bind, ret.
  destruct (ask_guesser _ _ _ s) as [[gc | e] s1]; [| reflexivity].
  destruct (ask_validator _ _ _ s1) as [[vg | e] s2]; reflexivity.
Qed.

Lemma negotiate_eq rem ent gs s :
  negotiate rem ent gs s =
  match propose_and_validate rem ent gs s with
  | (Ok gcv, s2) =>
      match ask_consensus (fst (fst gcv)) (snd gcv) s2 with
      | (Ok b, s3) =>
          (Ok (mk_negotiation (fst (fst gcv)) (snd (fst gcv)) (snd gcv) b), s3)
      | (Raise e, s3) => (Raise e, s3)
      end
  | (Raise e, s2) => (Raise e, s2)
  end.
Proof.
  unfold negotiate, bind, ret.
  destruct (propose_and_validate _ _ _ s) as [[gcv | e] s2]; [| reflexivity].
  destruct (ask_consensus _ _ s2) as [[b | e] s3]; reflexivity.
Qed.

Lemma conclude_eq attempt n s :
  conclude attempt n s =
  (verdict_outcome attempt n,
   mk_state (record_guess (guesses s) (guesser_category n) (guesser_group n))
            (world s) (queries s)).
Proof.
  unfold conclude, verdict_outcome, record, get_guesses, set_guesses, bind, ret, raise.
  destruct (consensus_result n); [reflexivity |].
  simpl. destruct (attempt =? max_retries)%nat; reflexivity.
Qed.

Lemma attempt_body_eq rem ent gs attempt s :
  attempt_body rem ent gs attempt s =
  match negotiate rem ent gs s with
  | (Ok n, s3) =>
      (verdict_outcome attempt n,
       mk_state (record_guess (guesses s3) (guesser_category n) (guesser_group n))
                (world s3) (queries s3))
  | (Raise e, s3) => (Raise e, s3)
  end.
Proof.
  unfold attempt_body, bind.
  destruct (negotiate _ _ _ s) as [[n | e] s3]; [apply conclude_eq | reflexivity].
Qed.

(** The three steps never touch the store. *)
Lemma ask_guesser_inv fb rs gs s r s1 :
  ask_guesser fb rs gs s = (r, s1) ->
  guesses s1 = guesses s /\
  queries s1 = (queries s ++ [user_query GuesserAgent (guesser_prompt fb rs gs)])%list.
Proof.
  rewrite ask_guesser_eq.
  destruct (_get_agent_reply _ _ s) as [[reply | e] s'] eqn:E; intros H;
    inversion H; subst; eapply get_agent_reply_inv; eassumption.
Qed.

Lemma ask_validator_inv fb rs c s r s1 :
  ask_validator fb rs c s = (r, s1) ->
  guesses s1 = guesses s /\
  queries s1 = (queries s ++ [user_query ValidatorAgent (validator_prompt fb rs c)])%list.
Proof.
  rewrite ask_validator_eq.
  destruct (_get_agent_reply _ _ s) as [[reply | e] s'] eqn:E; intros H;
    inversion H; subst; eapply get_agent_reply_inv; eassumption.
Qed.

Lemma ask_consensus_inv g vg s r s1 :
  ask_consensus g vg s = (r, s1) ->
  guesses s1 = guesses s /\
  queries s1 = (queries s ++ [user_query ConsensusAgent (consensus_prompt g vg)])%list.
Proof.
  rewrite ask_consensus_eq.
  destruct (_get_agent_reply _ _ s) as [[reply | e] s'] eqn:E; intros H;
    inversion H; subst; eapply get_agent_reply_inv; eassumption.
Qed.

Lemma propose_and_validate_guesses rem ent gs s :
  guesses (snd (propose_and_validate rem ent gs s)) = guesses s.
Proof.
  rewrite propose_and_validate_eq.
  destruct (ask_guesser _ _ _ s) as [[gc | e] s1] eqn:E1;
    apply ask_guesser_inv in E1 as [G1 _]; [| exact G1].
  destruct (ask_validator _ _ _ s1) as [[vg | e] s2] eqn:E2;
    apply ask_validator_inv in E2 as [G2 _]; simpl; congruence.
Qed.

Lemma negotiate_guesses rem ent gs s :
  guesses (snd (negotiate rem ent gs s)) = guesses s.
Proof.
  rewrite negotiate_eq.
  pose proof (propose_and_validate_guesses rem ent gs s) as P.
  destruct (propose_and_validate _ _ _ s) as [[gcv | e] s2]; simpl in P; [| exact P].
  destruct (ask_consensus _ _ s2) as [[b | e] s3] eqn:E3;
    apply ask_consensus_inv in E3 as [G3 _]; simpl; congruence.
Qed.

(** *** One attempt *)

Lemma att_run_negotiation a :
  match att_negotiation a with
  | Ok n =>
      att_outcome a = verdict_outcome (att_number a) n /\
      guesses (att_end a)
      = record_guess (guesses (att_start a)) (guesser_category n) (guesser_group n)
  | Raise e =>
      att_outcome a = Raise e /\ guesses (att_end a) = guesses (att_start a)
  end.
Proof.
  unfold att_negotiation, att_outcome, att_end, att_run.
  rewrite attempt_body_eq.
  pose proof (negotiate_guesses (att_remaining a) (att_entire a)
                (att_group_size a) (att_start a)) as G.
  destruct (negotiate _ _ _ (att_start a)) as [[n | e] s3]; simpl in *.
  - rewrite G. split; reflexivity.
  - split; [reflexivity | exact G].
Qed.

Lemma att_end_queries a :
  queries (att_end a)
  = queries (snd (negotiate (att_remaining a) (att_entire a) (att_group_size a)
                            (att_start a))).
Proof.
  unfold att_end, att_run. rewrite attempt_body_eq.
  destruct (negotiate _ _ _ (att_start a)) as [[n | e] s3]; reflexivity.
Qed.



Lemma falls_through_rejected a :
  att_outcome a = Ok None ->
  att_number a <> max_retries /\
  exists n, att_negotiation a = Ok n /\ consensus_result n = false.
Proof.
  intros O. pose proof (att_run_negotiation a) as H.
  destruct (att_negotiation a) as [n | e]; destruct H as [H _];
    rewrite H in O; [| discriminate].
  unfold verdict_outcome in O.
  destruct (consensus_result n) eqn:C; [discriminate |].
  destruct (att_number a =? max_retries)%nat eqn:K; [discriminate |].
  apply Nat.eqb_neq in K. split; [exact K |]. exists n. split; [reflexivity | exact C].
Qed.

Lemma judged_recorded a c g :
  judged a c g ->
  guesses (att_end a) = record_guess (guesses (att_start a)) c g.
Proof.
  intros (n & E & <- & <-). pose proof (att_run_negotiation a) as H.
  rewrite E in H. apply H.
Qed.

Lemma att_end_store a :
  guesses (att_end a) = guesses (att_start a) \/
  exists c g, judged a c g /\
              guesses (att_end a) = record_guess (guesses (att_start a)) c g.
Proof.
  pose proof (att_run_negotiation a) as H.
  destruct (att_negotiation a) as [n | e] eqn:E.
  - right. exists (guesser_category n), (guesser_group n).
    split; [| apply H]. exists n. rewrite E. repeat split.
  - left. apply H.
Qed.

Lemma proposal_queries a g c vg :
  att_proposal a = Ok (g, c, vg) ->
  queries (att_end a) = (queries (att_start a) ++ three_queries a g c vg)%list.
Proof.
  unfold att_proposal. intros P. rewrite att_end_queries, negotiate_eq.
  rewrite propose_and_validate_eq in *.
  fold (att_feedback a) in *. fold (att_remaining_str a) in *.
  destruct (ask_guesser _ _ _ (att_start a)) as [[gc | e] s1] eqn:E1;
    [| discriminate].
  destruct (ask_validator _ _ _ s1) as [[vg' | e] s2] eqn:E2; [| discriminate].
  simpl in P. inversion P; subst. simpl.
  apply ask_guesser_inv in E1 as [_ Q1].
  apply ask_validator_inv in E2 as [_ Q2].
  destruct (ask_consensus (fst gc) vg s2) as [[b | e] s3] eqn:E3;
    apply ask_consensus_inv in E3 as [_ Q3]; simpl;
    rewrite Q3, Q2, Q1; unfold three_queries;
    rewrite <- !app_assoc; reflexivity.
Qed.

Lemma negotiation_transcript a n :
  att_negotiation a = Ok n <->
  exists guesser_reply validator_reply consensus_reply,
    transcript a guesser_reply validator_reply consensus_reply n.
Proof.
  unfold att_negotiation, transcript.
  rewrite negotiate_eq, propose_and_validate_eq.
  fold (att_feedback a). fold (att_remaining_str a).
  rewrite ask_guesser_eq. split.
  - destruct (_get_agent_reply GuesserAgent _ (att_start a))
      as [[gr | e] s1] eqn:E1; [| discriminate].
    destruct (parse_guesser_reply gr) as [[g c] | e] eqn:P1; [| discriminate].
    simpl. rewrite ask_validator_eq.
    destruct (_get_agent_reply ValidatorAgent _ s1)
      as [[vr | e] s2] eqn:E2; [| discriminate].
    destruct (parse_validator_reply vr) as [vg | e] eqn:P2; [| discriminate].
    simpl. rewrite ask_consensus_eq.
    destruct (_get_agent_reply ConsensusAgent _ s2)
      as [[cr | e] s3] eqn:E3; [| discriminate].
    simpl. intros H. inversion H; subst n; simpl.
    exists gr, vr, cr, s1, s2, s3. repeat split; assumption.
  - intros (gr & vr & cr & s1 & s2 & s3 & E1 & P1 & E2 & P2 & E3 & P3).
    rewrite E1, P1. simpl. rewrite ask_validator_eq, E2, P2. simpl.
    rewrite ask_consensus_eq, E3. simpl. rewrite P3.
    destruct n; reflexivity.
Qed.

(** *** The loop *)

Lemma guess_loop_run rem ent gs ns s :
  loop_run rem ent gs ns s (attempts_of rem ent gs ns s)
           (for_attempts ns (attempt_body rem ent gs)
                         (raise (ValueError no_consensus_message)) s).
Proof.
  revert s. induction ns as [| k rest IH]; intros s; simpl.
  - apply run_exhausted.
  - unfold bind.
    change (attempt_body rem ent gs k s)
      with (att_run (mk_attempt rem ent gs k s)).
    pose proof (IH (att_end (mk_attempt rem ent gs k s))) as IH'.
    unfold att_outcome, att_end in *.
    destruct (att_run (mk_attempt rem ent gs k s)) as [[[v |] | e] s'] eqn:E;
      simpl in *.
    + replace s' with (att_end (mk_attempt rem ent gs k s))
        by (unfold att_end; rewrite E; reflexivity).
      apply run_return. unfold att_outcome. rewrite E. reflexivity.
    + apply run_next; [unfold att_outcome; rewrite E; reflexivity |].
      unfold att_end. rewrite E. exact IH'.
    + replace s' with (att_end (mk_attempt rem ent gs k s))
        by (unfold att_end; rewrite E; reflexivity).
      apply run_raise. unfold att_outcome. rewrite E. reflexivity.
Qed.

Lemma guess_run rem ent gs metrics s :
  loop_run rem ent gs (List.seq 1 max_retries) s
           (guess_attempts rem ent gs s) (guess rem ent gs metrics s).
Proof. apply guess_loop_run. Qed.

Lemma loop_run_length rem ent gs ns s atts r :
  loop_run rem ent gs ns s atts r -> length atts <= length ns.
Proof. induction 1; simpl; lia. Qed.



(** The attempts carry the numbers of the loop, in order. *)
Lemma loop_run_numbers rem ent gs ns s atts r :
  loop_run rem ent gs ns s atts r ->
  forall i a, atts !! i = Some a ->
              ns !! i = Some (att_number a) /\
              att_remaining a = rem /\ att_entire a = ent /\ att_group_size a = gs.
Proof.
  induction 1 as [s | k rest s v a O | k rest s e a O | k rest s atts r a O R IH];
    intros i b L.
  - destruct i; discriminate.
  - destruct i as [| i]; [| destruct i; discriminate].
    inversion L; subst b. repeat split.
  - destruct i as [| i]; [| destruct i; discriminate].
    inversion L; subst b. repeat split.
  - destruct i as [| i]; simpl in *.
    + inversion L; subst b. repeat split.
    + apply IH. exact L.
Qed.

(** The last attempt decides the call; the ones before it fell through. *)
Lemma loop_run_last rem ent gs ns s atts r :
  loop_run rem ent gs ns s atts r ->
  forall a, last atts = Some a ->
    snd r = att_end a /\
    (att_outcome a = Ok None -> length atts = length ns) /\
    fst r = match att_outcome a with
            | Ok (Some v) => Ok v
            | Ok None => Raise (ValueError no_consensus_message)
            | Raise e => Raise e
            end.
Proof.
  induction 1 as [s | k rest s v a O | k rest s e a O | k rest s atts r a O R IH];
    intros b L.
  - discriminate.
  - inversion L; subst b. rewrite O. repeat split. discriminate.
  - inversion L; subst b. rewrite O. repeat split. discriminate.
  - destruct atts as [| a' atts'].
    + inversion L; subst b. inversion R; subst. rewrite O. repeat split.
    + rewrite last_cons_cons in L. destruct (IH b L) as (E1 & E2 & E3).
      repeat split; [exact E1 | | exact E3].
      intros Ob. simpl in *. rewrite (E2 Ob). reflexivity.
Qed.

Lemma loop_run_nonempty rem ent gs k rest s atts r :
  loop_run rem ent gs (k :: rest) s atts r -> exists a, last atts = Some a.
Proof.
  intros R. destruct atts as [| a atts].
  - inversion R.
  - destruct (last (a :: atts)) eqn:L; [eauto |].
    apply last_None in L. discriminate.
Qed.

Lemma loop_run_before_last rem ent gs ns s atts r :
  loop_run rem ent gs ns s atts r ->
  forall i a, atts !! i = Some a -> S i < length atts ->
    att_outcome a = Ok None /\
    exists b, atts !! S i = Some b /\ att_start b = att_end a.
Proof.
  induction 1 as [s | k rest s v a O | k rest s e a O | k rest s atts r a O R IH];
    intros i b L Hi; simpl in *; try lia.
  destruct i as [| i]; simpl in *.
  - inversion L; subst b. split; [exact O |].
    inversion R; subst; simpl in *; try lia; eexists; split; reflexivity.
  - apply IH; [exact L | lia].
Qed.

Lemma loop_run_chain rem ent gs ns s atts r :
  loop_run rem ent gs ns s atts r -> chain (guesses s) atts (guesses (snd r)).
Proof.
  induction 1 as [s | k rest s v a O | k rest s e a O | k rest s atts r a O R IH];
    simpl.
  - apply chain_nil.
  - apply (chain_cons a). apply chain_nil.
  - apply (chain_cons a). apply chain_nil.
  - apply (chain_cons a). exact IH.
Qed.

(** In a call of [guess] the attempts are numbered from 1, and the
    fifteenth never falls through. *)
Lemma guess_attempt_number rem ent gs s i a :
  guess_attempts rem ent gs s !! i = Some a ->
  att_number a = S i /\ i < max_retries.
Proof.
  intros L.
  destruct (loop_run_numbers _ _ _ _ _ _ _ (guess_run rem ent gs None s) i a L)
    as (N & _).
  apply lookup_seq in N. lia.
Qed.

Lemma guess_last_attempt rem ent gs metrics s :
  exists a, last (guess_attempts rem ent gs s) = Some a /\
            snd (guess rem ent gs metrics s) = att_end a /\
            fst (guess rem ent gs metrics s)
            = match att_outcome a with
              | Ok (Some v) => Ok v
              | Ok None => Raise (ValueError no_consensus_message)
              | Raise e => Raise e
              end /\
            att_outcome a <> Ok None.
Proof.
  pose proof (guess_run rem ent gs metrics s) as R.
  destruct (loop_run_nonempty _ _ _ _ _ _ _ _ R) as (a & L).
  destruct (loop_run_last _ _ _ _ _ _ _ R a L) as (E1 & E2 & E3).
  exists a. repeat split; try assumption.
  intros O. specialize (E2 O). rewrite length_seq in E2.
  rewrite last_lookup in L. rewrite E2 in L.
  apply guess_attempt_number in L as (N & _).
  apply falls_through_rejected in O as (K & _). unfold max_retries in *. lia.
Qed.

(** *** Queries of an attempt that stops in step 1 or 2 *)

Lemma proposal_raise a e :
  att_proposal a = Raise e ->
  att_outcome a = Raise e /\
  guesses (att_end a) = guesses (att_start a) /\
  exists qs, queries (att_end a) = (queries (att_start a) ++ qs)%list /\
             1 <= length qs <= 2 /\
             Forall (fun q => q_agent q <> ConsensusAgent) qs.
Proof.
  intros P. pose proof (att_run_negotiation a) as H.
  assert (N : att_negotiation a = Raise e).
  { unfold att_negotiation, att_proposal in *. rewrite negotiate_eq.
    destruct (propose_and_validate _ _ _ (att_start a)) as [[gcv | e'] s2];
      simpl in *; congruence. }
  rewrite N in H. destruct H as [H1 H2]. repeat split; try assumption.
  rewrite att_end_queries, negotiate_eq.
  unfold att_proposal in P. rewrite propose_and_validate_eq in *.
  destruct (ask_guesser _ _ _ (att_start a)) as [[gc | e1] s1] eqn:E1;
    apply ask_guesser_inv in E1 as [_ Q1].
  - destruct (ask_validator _ _ _ s1) as [[vg | e2] s2] eqn:E2;
      [discriminate |].
    apply ask_validator_inv in E2 as [_ Q2]. simpl.
    eexists. rewrite Q2, Q1, <- app_assoc. split; [reflexivity |].
    simpl. split; [lia |]. repeat constructor; discriminate.
  - simpl. eexists. rewrite Q1. split; [reflexivity |].
    simpl. split; [lia |]. repeat constructor; discriminate.
Qed.

Lemma attempt_queries_bound a :
  length (queries (att_end a)) <= length (queries (att_start a)) + 3.
Proof.
  destruct (att_proposal a) as [[[g c] vg] | e] eqn:P.
  - rewrite (proposal_queries a g c vg P), length_app. simpl. lia.
  - apply proposal_raise in P as (_ & _ & qs & Q & L & _).
    rewrite Q, length_app. lia.
Qed.

Lemma loop_run_queries rem ent gs ns s atts r :
  loop_run rem ent gs ns s atts r ->
  length (queries (snd r)) <= length (queries s) + 3 * length atts.
Proof.
  induction 1 as [s | k rest s v a O | k rest s e a O | k rest s atts r a O R IH];
    simpl.
  - lia.
  - pose proof (attempt_queries_bound a) as B. simpl in B. lia.
  - pose proof (attempt_queries_bound a) as B. simpl in B. lia.
  - pose proof (attempt_queries_bound a) as B. simpl in B. lia.
Qed.

Lemma outcome_Ok_proposal a v :
  att_outcome a = Ok v -> exists g c vg, att_proposal a = Ok (g, c, vg).
Proof.
  intros O. destruct (att_proposal a) as [[[g c] vg] | e] eqn:P; [eauto |].
  apply proposal_raise in P as (O' & _). congruence.
Qed.

(** *** The claims on the retry loop *)


(** C4.  A call of [guess] comes to an end: it returns or raises after
    at least one and at most 15 attempts and after at most 45 queries;
    every attempt either returns from the call, or raises out of it, or
    hands over to the attempt with the next number, which is below 16. *)
Theorem guess_terminates rem ent gs metrics s :
  let atts := guess_attempts rem ent gs s in
  let r := guess rem ent gs metrics s in
  ((exists v, fst r = Ok v) \/ (exists e, fst r = Raise e)) /\
  1 <= length atts <= 15 /\
  length (queries (snd r)) <= length (queries s) + 45 /\
  forall i a, atts !! i = Some a ->
    att_number a = S i /\
    ((exists v, att_outcome a = Ok (Some v) /\ fst r = Ok v /\ length atts = S i) \/
     (exists e, att_outcome a = Raise e /\ fst r = Raise e /\ length atts = S i) \/
     (att_outcome a = Ok None /\ S i < 15 /\
      exists b, atts !! S i = Some b /\ att_number b = S (S i) /\
                att_start b = att_end a)).
Proof.
  intros atts r. pose proof (guess_run rem ent gs metrics s) as R.
  fold atts in R. fold r in R.
  pose proof (loop_run_length _ _ _ _ _ _ _ R) as Len. rewrite length_seq in Len.
  unfold max_retries in Len.
  destruct (guess_last_attempt rem ent gs metrics s) as (z & L & E & F & O).
  fold atts in L. fold r in E, F.
  split; [| split; [| split]].
  - destruct (fst r); eauto.
  - split; [| exact Len]. destruct atts; [discriminate | simpl; lia].
  - pose proof (loop_run_queries _ _ _ _ _ _ _ R). lia.
  - intros i a Li. pose proof (guess_attempt_number _ _ _ _ _ _ Li) as (N & _).
    split; [exact N |].
    pose proof (lookup_lt_Some _ _ _ Li) as Lt.
    destruct (decide (S i < length atts)) as [Hlt | Hge].
    + right. right.
      destruct (loop_run_before_last _ _ _ _ _ _ _ R i a Li Hlt)
        as (Oa & b & Lb & Sb).
      split; [exact Oa |]. split; [lia |]. exists b.
      pose proof (guess_attempt_number _ _ _ _ _ _ Lb) as (Nb & _).
      repeat split; assumption.
    + assert (Hi : S i = length atts) by lia.
      rewrite last_lookup in L. rewrite <- Hi in L. simpl in L.
      rewrite Li in L. inversion L; subst z.
      destruct (att_outcome a) as [[v |] | e]; [left | congruence | right; left];
        eauto.
Qed.

(** C5.  When [guess] returns, the value is the group and the category
    that [parse_guesser_reply] read from the guesser's reply in the last
    attempt of the call, and in that attempt the consensus agent, asked
    about that group and the validator's group, gave a reply that
    parses to consensus reached.  The group returned is the guesser's:
    it differs from the validator's whenever the two differ. *)
Theorem guess_returns_guesser_pair rem ent gs metrics s group category :
  fst (guess rem ent gs metrics s) = Ok (group, category) ->
  exists a guesser_reply validator_reply consensus_reply n,
    last (guess_attempts rem ent gs s) = Some a /\
    transcript a guesser_reply validator_reply consensus_reply n /\
    parse_guesser_reply guesser_reply = Ok (group, category) /\
    parse_consensus_reply consensus_reply = true /\
    group = guesser_group n /\ category = guesser_category n /\
    (validator_group n <> guesser_group n -> group <> validator_group n).
Proof.
  intros Hr.
  destruct (guess_last_attempt rem ent gs metrics s) as (a & L & _ & F & _).
  rewrite Hr in F.
  pose proof (att_run_negotiation a) as H.
  destruct (att_negotiation a) as [n | e] eqn:N; destruct H as [O _];
    rewrite O in F; [| discriminate].
  unfold verdict_outcome in F.
  destruct (consensus_result n) eqn:C;
    [| destruct (att_number a =? max_retries)%nat; discriminate].
  inversion F; subst group category.
  apply negotiation_transcript in N as (gr & vr & cr & T).
  exists a, gr, vr, cr, n.
  pose proof T as (s1 & s2 & s3 & _ & P1 & _ & _ & _ & P3).
  repeat split; try assumption; congruence.
Qed.


(** C9.  When step 1 or step 2 of an attempt of a call raises (the
    reply of the guesser or of the validator does not parse, or the
    agent gives no reply), the call raises that exception, the attempt
    is the last one of the call and asks the consensus agent nothing,
    and the store is the one the attempt started from. *)
Theorem parse_error_leaves_store rem ent gs metrics s a e :
  In a (guess_attempts rem ent gs s) ->
  att_proposal a = Raise e ->
  fst (guess rem ent gs metrics s) = Raise e /\
  last (guess_attempts rem ent gs s) = Some a /\
  guesses (snd (guess rem ent gs metrics s)) = guesses (att_start a) /\
  Forall (fun q => q_agent q <> ConsensusAgent) (att_queries a).
Proof.
  intros I P. pose proof (guess_run rem ent gs metrics s) as R.
  apply proposal_raise in P as (O & G & qs & Q & _ & NC).
  apply list_elem_of_In, list_elem_of_lookup in I as (i & Li).
  pose proof (lookup_lt_Some _ _ _ Li) as Lt.
  assert (La : last (guess_attempts rem ent gs s) = Some a).
  { destruct (decide (S i < length (guess_attempts rem ent gs s))) as [Hlt | Hge].
    - destruct (loop_run_before_last _ _ _ _ _ _ _ R i a Li Hlt) as (Oa & _).
      congruence.
    - rewrite last_lookup.
      replace (pred (length (guess_attempts rem ent gs s))) with i by lia.
      exact Li. }
  destruct (loop_run_last _ _ _ _ _ _ _ R a La) as (E1 & _ & E3).
  rewrite O in E3. repeat split; try assumption.
  - rewrite E1. exact G.
  - unfold att_queries. rewrite Q, drop_app_length. exact NC.
Qed.

(** *** The store *)

Lemma store_append_in g c grp c' wgs :
  In (c', wgs) g ->
  exists wgs', In (c', wgs') (store_append g c grp) /\ incl wgs wgs'.
Proof.
  induction g as [| [k v] rest IH]; simpl; intros I; [contradiction |].
  destruct (String.eqb k c).
  - destruct I as [E | I].
    + inversion E; subst. exists (wgs ++ [grp])%list.
      split; [left; reflexivity | apply incl_appl, incl_refl].
    + exists wgs. split; [right; exact I | apply incl_refl].
  - destruct I as [E | I].
    + exists wgs. split; [left; exact E | apply incl_refl].
    + destruct (IH I) as (wgs' & I' & S). exists wgs'. split; [right |]; assumption.
Qed.

Lemma store_append_hit g c grp :
  store_contains g c = true ->
  exists wgs, In (c, (wgs ++ [grp])%list) (store_append g c grp).
Proof.
  unfold store_contains.
  induction g as [| [k v] rest IH]; simpl; intros H; [discriminate |].
  destruct (String.eqb_spec k c) as [-> | N].
  - exists v. left. reflexivity.
  - simpl in H. destruct (IH H) as (wgs & I). exists wgs. right. exact I.
Qed.

Lemma store_append_inv g c grp c' wgs' :
  In (c', wgs') (store_append g c grp) ->
  In (c', wgs') g \/
  (c' = c /\ exists wgs, In (c', wgs) g /\ wgs' = (wgs ++ [grp])%list).
Proof.
  induction g as [| [k v] rest IH]; simpl; intros I; [contradiction |].
  destruct (String.eqb_spec k c) as [-> | N].
  - destruct I as [E | I].
    + inversion E; subst. right. split; [reflexivity |].
      exists v. split; [left |]; reflexivity.
    + left. right. exact I.
  - destruct I as [E | I].
    + left. left. exact E.
    + destruct (IH I) as [I' | (E & wgs & I' & W)].
      * left. right. exact I'.
      * right. split; [exact E |]. exists wgs. split; [right |]; assumption.
Qed.

Lemma store_contains_after_set g c :
  store_contains
    (if negb (store_contains g c) then (g ++ [(c, [])])%list else g) c = true.
Proof.
  destruct (store_contains g c) eqn:E; simpl; [exact E |].
  unfold store_contains. rewrite existsb_app. simpl.
  rewrite String.eqb_refl. apply orb_true_iff. right. reflexivity.
Qed.

Lemma record_guess_new g c grp : store_has (record_guess g c grp) c grp.
Proof.
  unfold record_guess, store_has.
  destruct (store_append_hit _ c grp (store_contains_after_set g c)) as (wgs & I).
  exists (wgs ++ [grp])%list. split; [exact I |].
  apply in_or_app. right. left. reflexivity.
Qed.

Lemma record_guess_mono g c grp c' grp' :
  store_has g c' grp' -> store_has (record_guess g c grp) c' grp'.
Proof.
  intros (wgs & I & J). unfold record_guess.
  assert (I1 : In (c', wgs)
                  (if negb (store_contains g c)
                   then (g ++ [(c, [])])%list else g)).
  { destruct (negb (store_contains g c)); [apply in_or_app; left |]; exact I. }
  destruct (store_append_in _ c grp c' wgs I1) as (wgs' & I' & S).
  exists wgs'. split; [exact I' | apply S, J].
Qed.

Lemma record_guess_inv g c grp c' grp' :
  store_has (record_guess g c grp) c' grp' ->
  store_has g c' grp' \/ (c' = c /\ grp' = grp).
Proof.
  intros (wgs' & I & J). unfold record_guess in I.
  assert (Back : forall w, In (c', w)
                              (if negb (store_contains g c)
                               then (g ++ [(c, [])])%list else g) ->
                           In grp' w -> store_has g c' grp').
  { intros w Iw Jw. destruct (negb (store_contains g c)).
    - apply in_app_or in Iw as [Iw | [E | []]].
      + exists w. split; assumption.
      + inversion E; subst. contradiction.
    - exists w. split; assumption. }
  apply store_append_inv in I as [I | (E & wgs & I & W)].
  - left. eapply Back; eassumption.
  - subst wgs'. apply in_app_or in J as [J | [J | []]].
    + left. eapply Back; eassumption.
    + right. split; [exact E | symmetry; exact J].
Qed.

Lemma attempt_store_mono a c grp :
  store_has (guesses (att_start a)) c grp -> store_has (guesses (att_end a)) c grp.
Proof.
  intros H. destruct (att_end_store a) as [E | (c' & g' & _ & E)]; rewrite E.
  - exact H.
  - apply record_guess_mono, H.
Qed.

(** *** Chains of attempts *)

Lemma chain_app g l1 gm l2 g' :
  chain g l1 gm -> chain gm l2 g' -> chain g (l1 ++ l2) g'.
Proof.
  induction 1 as [g | a atts gm C IH]; intros C2; simpl; [exact C2 |].
  apply chain_cons. apply IH, C2.
Qed.

Lemma chain_app_inv l1 l2 g g' :
  chain g (l1 ++ l2) g' -> exists gm, chain g l1 gm /\ chain gm l2 g'.
Proof.
  revert g. induction l1 as [| a l1 IH]; simpl; intros g C.
  - exists g. split; [apply chain_nil | exact C].
  - inversion C as [| a' atts' g'' C0]; subst. destruct (IH _ C0) as (gm & C1 & C2).
    exists gm. split; [apply chain_cons, C1 | exact C2].
Qed.

Lemma chain_mono g atts g' c grp :
  chain g atts g' -> store_has g c grp -> store_has g' c grp.
Proof.
  induction 1 as [g | a atts g' C IH]; intros H; [exact H |].
  apply IH, attempt_store_mono, H.
Qed.

Lemma chain_recorded g atts g' a c grp :
  chain g atts g' -> In a atts -> judged a c grp -> store_has g' c grp.
Proof.
  induction 1 as [g | b atts g' C IH]; intros I J; [contradiction |].
  destruct I as [<- | I].
  - apply (chain_mono _ _ _ _ _ C).
    rewrite (judged_recorded _ _ _ J). apply record_guess_new.
  - apply IH; assumption.
Qed.

Lemma chain_origin g atts g' c grp :
  chain g atts g' -> store_has g' c grp ->
  store_has g c grp \/ exists a, In a atts /\ judged a c grp.
Proof.
  induction 1 as [g | b atts g' C IH]; intros H; [left; exact H |].
  destruct (IH H) as [H1 | (a & I & J)].
  - destruct (att_end_store b) as [E | (c' & g0 & J & E)]; rewrite E in H1.
    + left. exact H1.
    + apply record_guess_inv in H1 as [H1 | (-> & ->)].
      * left. exact H1.
      * right. exists b. split; [left; reflexivity | exact J].
  - right. exists a. split; [right; exact I | exact J].
Qed.

Lemma chain_later g pre a mid b post g' c grp :
  chain g (pre ++ a :: mid ++ b :: post) g' -> judged a c grp ->
  store_has (guesses (att_start b)) c grp.
Proof.
  intros C J. apply chain_app_inv in C as (g1 & _ & C).
  inversion C as [| a' atts' g'' C1]; subst.
  apply chain_app_inv in C1 as (g2 & Cmid & Cb).
  inversion Cb; subst.
  apply (chain_mono _ _ _ _ _ Cmid).
  rewrite (judged_recorded _ _ _ J). apply record_guess_new.
Qed.

Lemma session_chain s atts s' :
  session s atts s' -> chain (guesses s) atts (guesses s').
Proof.
  induction 1 as [s | s atts s1 w rem ent gs metrics S IH]; [apply chain_nil |].
  eapply chain_app; [exact IH |].
  apply (loop_run_chain _ _ _ _ _ _ _ (guess_run rem ent gs metrics (with_world s1 w))).
Qed.

(** *** The feedback block *)

Lemma append_assoc (a b c : string) : (a ++ b) ++ c = a ++ b ++ c.
Proof.
  induction a as [| x a IH]; [reflexivity |].
  change (String x ((a ++ b) ++ c) = String x (a ++ b ++ c)).
  rewrite IH. reflexivity.
Qed.

Lemma append_nil_r (a : string) : a ++ "" = a.
Proof.
  induction a as [| x a IH]; [reflexivity |].
  change (String x (a ++ "") = String x a). rewrite IH. reflexivity.
Qed.

Lemma concat_empty_cons (x : string) (l : list string) :
  String.concat "" (x :: l) = x ++ String.concat "" l.
Proof. destruct l; simpl; [symmetry; apply append_nil_r | reflexivity]. Qed.

Lemma concat_empty_app (l1 l2 : list string) :
  String.concat "" (l1 ++ l2) = String.concat "" l1 ++ String.concat "" l2.
Proof.
  induction l1 as [| x l1 IH]; [reflexivity |].
  change ((x :: l1) ++ l2)%list with (x :: (l1 ++ l2))%list.
  rewrite !concat_empty_cons, IH, append_assoc. reflexivity.
Qed.

Lemma fold_feedback_lines (g : Store) (init : string) :
  List.fold_left (fun fb entry => fb ++ feedback_line entry) g init
  = init ++ String.concat "" (List.map feedback_line g).
Proof.
  revert init. induction g as [| e g IH]; intros init.
  - simpl. symmetry. apply append_nil_r.
  - change (List.map feedback_line (e :: g))
      with (feedback_line e :: List.map feedback_line g).
    rewrite concat_empty_cons. simpl List.fold_left.
    rewrite IH, append_assoc. reflexivity.
Qed.

Lemma build_feedback_nonempty (g : Store) (successful : list string) :
  g <> [] ->
  build_feedback g successful
  = "Note:" ++ nl ++ do_not_repeat
    ++ String.concat "" (List.map feedback_line g)
    ++ successful_line successful.
Proof.
  intros N. unfold build_feedback, successful_line.
  destruct g as [| e g]; [congruence |].
  change (truthy (e :: g)) with true. cbv iota.
  rewrite fold_feedback_lines.
  destruct (truthy successful).
  - rewrite !append_assoc. reflexivity.
  - rewrite !append_assoc, append_nil_r. reflexivity.
Qed.

Lemma feedback_lists_stored_pair (g : Store) successful c grp :
  store_has g c grp -> lists_pair (build_feedback g successful) c grp.
Proof.
  intros (wgs & I & J).
  apply in_split in I as (before & after & ->).
  apply in_split in J as (gb & ga & ->).
  exists before, gb, ga,
    (String.concat "" (List.map feedback_line after) ++ successful_line successful).
  rewrite build_feedback_nonempty by (destruct before; discriminate).
  rewrite List.map_app, concat_empty_app.
  change (List.map feedback_line ((c, (gb ++ grp :: ga)%list) :: after))
    with (feedback_line (c, (gb ++ grp :: ga)%list) :: List.map feedback_line after).
  rewrite concat_empty_cons. unfold feedback_line at 2.
  change (fst (c, (gb ++ grp :: ga)%list)) with c.
  change (snd (c, (gb ++ grp :: ga)%list)) with (gb ++ grp :: ga)%list.
  rewrite !append_assoc. reflexivity.
Qed.

(** The queries of any attempt: the guesser first, then the validator
    if the guesser's reply parsed, then the consensus agent if the
    validator's did. *)
Lemma att_queries_cases a :
  att_queries a =
    [user_query GuesserAgent
       (guesser_prompt (att_feedback a) (att_remaining_str a) (att_group_size a))]
  \/ (exists c,
        att_queries a =
          [user_query GuesserAgent
             (guesser_prompt (att_feedback a) (att_remaining_str a)
                             (att_group_size a));
           user_query ValidatorAgent
             (validator_prompt (att_feedback a) (att_remaining_str a) c)])
  \/ (exists g c vg, att_queries a = three_queries a g c vg).
Proof.
  destruct (att_proposal a) as [[[g c] vg] | e] eqn:P.
  - right. right. exists g, c, vg. unfold att_queries.
    rewrite (proposal_queries a g c vg P). apply drop_app_length.
  - unfold att_queries. rewrite att_end_queries, negotiate_eq.
    unfold att_proposal in P. rewrite propose_and_validate_eq in *.
    fold (att_feedback a) in *. fold (att_remaining_str a) in *.
    destruct (ask_guesser _ _ _ (att_start a)) as [[gc | e1] s1] eqn:E1;
      apply ask_guesser_inv in E1 as [_ Q1].
    + destruct (ask_validator _ _ _ s1) as [[vg | e2] s2] eqn:E2;
        [discriminate |].
      apply ask_validator_inv in E2 as [_ Q2]. simpl.
      right. left. exists (snd gc).
      rewrite Q2, Q1, <- app_assoc. apply drop_app_length.
    + simpl. left. rewrite Q1. apply drop_app_length.
Qed.

(** *** The claims on the feedback store *)

(** C2, as the code has it.  In a session that starts with an empty
    store (a new solver, or one just reset), the store holds exactly
    the pairs of the attempts that got a verdict of the consensus
    agent: a pair is in the store only if an attempt proposed it and
    got a verdict, every pair that was rejected is in the store, and so
    is every pair for which consensus was reached, the returned ones. *)
Theorem store_records_judged_pairs s atts s' :
  session s atts s' ->
  guesses s = [] ->
  (forall c g, store_has (guesses s') c g ->
               exists a, In a atts /\ judged a c g) /\
  (forall a c g, In a atts -> rejected a c g -> store_has (guesses s') c g) /\
  (forall a n, In a atts -> att_negotiation a = Ok n -> consensus_result n = true ->
               store_has (guesses s') (guesser_category n) (guesser_group n)).
Proof.
  intros S E. apply session_chain in S. split; [| split].
  - intros c g H. destruct (chain_origin _ _ _ _ _ S H) as [H0 | H1]; [| exact H1].
    rewrite E in H0. destruct H0 as (wgs & [] & _).
  - intros a c g I (n & N & _ & C & G).
    apply (chain_recorded _ _ _ a c g S I). exists n. repeat split; assumption.
  - intros a n I N _. apply (chain_recorded _ _ _ a _ _ S I).
    exists n. repeat split; assumption.
Qed.

Lemma parse_guesser_reply_four reply g c :
  parse_guesser_reply reply = Ok (g, c) ->
  exists w1 w2 w3 w4, g = [w1; w2; w3; w4].
Proof.
  unfold parse_guesser_reply. cbv zeta.
  destruct (is_empty _ && is_empty _); [discriminate |].
  destruct (is_empty _); [discriminate |].
  destruct (is_empty _); [discriminate |].
  destruct (negb (length _ =? 4)%nat) eqn:E; [discriminate |].
  intros H. injection H as Hg Hc.
  apply negb_false_iff, Nat.eqb_eq in E. rewrite Hg in E. clear Hg Hc.
  destruct g as [| w1 [| w2 [| w3 [| w4 [| w5 g]]]]]; try discriminate.
  exists w1, w2, w3, w4. reflexivity.
Qed.

Lemma rejected_four_words a c g :
  rejected a c g -> exists w1 w2 w3 w4, g = [w1; w2; w3; w4].
Proof.
  intros (n & N & _ & _ & <-).
  apply negotiation_transcript in N as (gr & vr & cr & T).
  destruct T as (s1 & s2 & s3 & _ & P & _).
  apply (parse_guesser_reply_four _ _ _ P).
Qed.

Lemma lists_pair_names feedback c w1 w2 w3 w4 :
  lists_pair feedback c [w1; w2; w3; w4] -> names_pair feedback c w1 w2 w3 w4.
Proof.
  intros (before & gb & ga & rest & ->).
  exists (String.concat "" (List.map feedback_line before)),
         (List.map (fun group => "(" ++ join ", " group ++ ")") gb),
         (List.map (fun group => "(" ++ join ", " group ++ ")") ga),
         rest.
  unfold word_groups_str, join, do_not_repeat.
  rewrite List.map_app. cbn [List.map String.concat].
  rewrite !append_assoc. reflexivity.
Qed.

Lemma user_content_query agent prompt : user_content (user_query agent prompt) = [prompt].
Proof. destruct agent; reflexivity. Qed.

(** C3.  In a session, when an attempt ends without consensus for a
    pair, every later attempt, of the same call or of a later one,
    builds a feedback block that lists the category with the word
    group among the pairs not to repeat: under the heading of the note,
    the line of the category holds the four words of the group, between
    brackets and separated by commas.  Its guesser prompt, which is its
    first query, is that block followed by the rest of the prompt, and so
    is the prompt of every query it sends to the validator. *)
Theorem rejected_pair_feeds_back s atts s' pre a mid b post c g :
  session s atts s' ->
  atts = (pre ++ a :: mid ++ b :: post)%list ->
  rejected a c g ->
  lists_pair (att_feedback b) c g /\
  (exists w1 w2 w3 w4,
      g = [w1; w2; w3; w4] /\ names_pair (att_feedback b) c w1 w2 w3 w4) /\
  (exists rest,
      head (att_queries b) = Some (user_query GuesserAgent (att_feedback b ++ rest))) /\
  (forall q, In q (att_queries b) -> q_agent q = ValidatorAgent ->
             exists rest, q = user_query ValidatorAgent (att_feedback b ++ rest)) /\
  (forall q, In q (att_queries b) ->
             q_agent q = GuesserAgent \/ q_agent q = ValidatorAgent ->
             exists rest, user_content q = [att_feedback b ++ rest]).
Proof.
  intros S -> R. pose proof (rejected_four_words a c g R) as (w1 & w2 & w3 & w4 & Eg).
  destruct R as (n & N & _ & C & G). apply session_chain in S.
  assert (J : judged a c g) by (exists n; repeat split; assumption).
  assert (LP : lists_pair (att_feedback b) c g).
  { apply feedback_lists_stored_pair. apply (chain_later _ _ _ _ _ _ _ _ _ S J). }
  split; [exact LP |]. split; [| split; [| split]].
  - exists w1, w2, w3, w4. split; [exact Eg |].
    apply lists_pair_names. rewrite <- Eg. exact LP.
  - unfold guesser_prompt.
    destruct (att_queries_cases b) as [Q | [(c' & Q) | (g' & c' & vg' & Q)]];
      rewrite Q; eexists; reflexivity.
  - intros q I A.
    destruct (att_queries_cases b) as [Q | [(c' & Q) | (g' & c' & vg' & Q)]];
      rewrite Q in I; simpl in I.
    + destruct I as [<- | []]. discriminate.
    + destruct I as [<- | [<- | []]]; [discriminate |].
      unfold validator_prompt. eexists; reflexivity.
    + destruct I as [<- | [<- | [<- | []]]]; [discriminate | | discriminate].
      unfold validator_prompt. eexists; reflexivity.
  - intros q I A.
    destruct (att_queries_cases b) as [Q | [(c' & Q) | (g' & c' & vg' & Q)]];
      rewrite Q in I; simpl in I.
    + destruct I as [<- | []]. rewrite user_content_query.
      unfold guesser_prompt. eexists; reflexivity.
    + destruct I as [<- | [<- | []]]; rewrite user_content_query.
      * unfold guesser_prompt. eexists; reflexivity.
      * unfold validator_prompt. eexists; reflexivity.
    + destruct I as [<- | [<- | [<- | []]]]; try rewrite user_content_query.
      * unfold guesser_prompt. eexists; reflexivity.
      * unfold validator_prompt. eexists; reflexivity.
      * destruct A as [A | A]; discriminate.
Qed.

End Model.
(** ** Properties of the parsers *)

Lemma find_first (p : string -> bool) (lines : list string) (l : string) :
  List.find p lines = Some l <->
  exists before after,
    lines = (before ++ l :: after)%list /\ p l = true /\
    (forall x, In x before -> p x = false).
Proof.
  split.
  - induction lines as [| x lines IH]; simpl; [discriminate |].
    destruct (p x) eqn:E.
    + intros H. inversion H; subst. exists [], lines.
      repeat split; [exact E | intros y []].
    + intros H. destruct (IH H) as (before & after & -> & Pl & Pb).
      exists (x :: before), after. repeat split; [exact Pl |].
      intros y [<- | I]; [exact E | apply Pb, I].
  - intros (before & after & -> & Pl & Pb).
    induction before as [| x before IH]; simpl.
    + rewrite Pl. reflexivity.
    + rewrite (Pb x) by (left; reflexivity). apply IH.
      intros y I. apply Pb. right. exact I.
Qed.

Lemma find_no_line (p : string) (lines : list string) :
  List.find (startswith p) lines = None <-> no_line_starts p lines.
Proof.
  unfold no_line_starts. split.
  - intros H l I. apply (List.find_none _ _ H l I).
  - induction lines as [| x lines IH]; simpl; intros H; [reflexivity |].
    rewrite (H x) by (left; reflexivity). apply IH.
    intros l I. apply H. right. exact I.
Qed.

Lemma find_first_line (p : string) (lines : list string) (l : string) :
  List.find (startswith p) lines = Some l <-> first_line_starting p lines l.
Proof. apply find_first. Qed.

Lemma first_line_unique p lines l1 l2 :
  first_line_starting p lines l1 -> first_line_starting p lines l2 -> l1 = l2.
Proof.
  intros H1 H2. apply find_first_line in H1, H2. congruence.
Qed.

Lemma first_line_excludes p lines l :
  first_line_starting p lines l -> ~ no_line_starts p lines.
Proof.
  intros H N. apply find_first_line in H. apply find_no_line in N. congruence.
Qed.

Lemma starts_nonempty (p l : string) :
  p <> "" -> startswith p l = true -> is_empty l = false.
Proof.
  intros N H. destruct l; [| reflexivity].
  destruct p; [congruence | discriminate].
Qed.

Lemma next_or_empty_found p lines l :
  p <> "" -> List.find (startswith p) lines = Some l ->
  next_or_empty (startswith p) lines = l /\ is_empty l = false.
Proof.
  intros N H. unfold next_or_empty. rewrite H. split; [reflexivity |].
  apply find_first_line in H as (_ & _ & _ & S & _).
  apply (starts_nonempty p l N S).
Qed.

Lemma next_or_empty_missing p lines :
  List.find (startswith p) lines = None ->
  next_or_empty (startswith p) lines = "".
Proof. intros H. unfold next_or_empty. rewrite H. reflexivity. Qed.

(** [strip] gives a string that [strip] leaves alone. *)
Lemma rstrip_idempotent s : rstrip (rstrip s) = rstrip s.
Proof.
  induction s as [| c s IH]; [reflexivity |].
  simpl. destruct (rstrip s) as [| d r] eqn:E.
  - destruct (is_space c) eqn:Sc; [reflexivity |]. simpl. rewrite Sc. reflexivity.
  - simpl in *. rewrite IH. reflexivity.
Qed.

Lemma lstrip_rstrip_head c s :
  is_space c = false -> lstrip (rstrip (String c s)) = rstrip (String c s).
Proof.
  intros Sc. simpl. destruct (rstrip s); [rewrite Sc |]; simpl; rewrite Sc; reflexivity.
Qed.

Lemma lstrip_head s :
  lstrip s = "" \/ exists c t, lstrip s = String c t /\ is_space c = false.
Proof.
  induction s as [| c s IH]; [left; reflexivity |].
  simpl. destruct (is_space c) eqn:Sc; [exact IH |].
  right. exists c, s. split; [reflexivity | exact Sc].
Qed.

Lemma strip_idempotent s : strip (strip s) = strip s.
Proof.
  unfold strip. destruct (lstrip_head s) as [E | (c & t & E & Sc)]; rewrite E.
  - reflexivity.
  - rewrite (lstrip_rstrip_head c t Sc). apply rstrip_idempotent.
Qed.

Lemma parse_guesser_reply_eq reply :
  parse_guesser_reply reply =
  match List.find (startswith "Group:") (reply_lines reply),
        List.find (startswith "Category:") (reply_lines reply) with
  | None, None =>
      Raise (ValueError "GuesserAgent's reply is missing both 'Group' and 'Category'.")
  | None, Some _ => Raise (ValueError "GuesserAgent's reply is missing 'Group'.")
  | Some _, None => Raise (ValueError "GuesserAgent's reply is missing 'Category'.")
  | Some gl, Some cl =>
      if (length (comma_split gl) =? 4)%nat
      then Ok (List.map strip (comma_split gl), strip (replace "Category:" "" cl))
      else Raise (ValueError ("GuesserAgent's group contains "
                              ++ of_nat (length (comma_split gl))
                              ++ " words; expected exactly 4."))
  end.
Proof.
  unfold parse_guesser_reply. fold (reply_lines reply).
  destruct (List.find (startswith "Group:") (reply_lines reply)) as [gl |] eqn:G;
    destruct (List.find (startswith "Category:") (reply_lines reply)) as [cl |] eqn:C.
  - destruct (next_or_empty_found "Group:" _ gl ltac:(discriminate) G) as [-> ->].
    destruct (next_or_empty_found "Category:" _ cl ltac:(discriminate) C) as [-> ->].
    cbv beta iota zeta. change (false && false) with false. cbv iota.
    fold (comma_split gl). rewrite length_map.
    destruct (length (comma_split gl) =? 4)%nat; reflexivity.
  - destruct (next_or_empty_found "Group:" _ gl ltac:(discriminate) G) as [-> ->].
    rewrite (next_or_empty_missing _ _ C). reflexivity.
  - destruct (next_or_empty_found "Category:" _ cl ltac:(discriminate) C) as [-> ->].
    rewrite (next_or_empty_missing _ _ G). reflexivity.
  - rewrite (next_or_empty_missing _ _ G), (next_or_empty_missing _ _ C).
    reflexivity.
Qed.

Lemma parse_validator_reply_eq reply :
  parse_validator_reply reply =
  match List.find (startswith "Group:") (reply_lines reply) with
  | None => Raise (ValueError "ValidatorAgent's reply is missing 'Group'.")
  | Some gl =>
      if (length (comma_split gl) =? 4)%nat
      then Ok (List.map strip (comma_split gl))
      else Raise (ValueError "ValidatorAgent's group does not contain exactly 4 words.")
  end.
Proof.
  unfold parse_validator_reply. fold (reply_lines reply).
  destruct (List.find (startswith "Group:") (reply_lines reply)) as [gl |] eqn:G.
  - destruct (next_or_empty_found "Group:" _ gl ltac:(discriminate) G) as [-> ->].
    cbv beta iota zeta. fold (comma_split gl). rewrite length_map.
    destruct (length (comma_split gl) =? 4)%nat; reflexivity.
  - rewrite (next_or_empty_missing _ _ G). reflexivity.
Qed.

Lemma stripped_words (l : list string) :
  Forall (fun w => strip w = w) (List.map strip l).
Proof.
  induction l as [| x l IH]; simpl; constructor; [apply strip_idempotent | exact IH].
Qed.

Lemma parse_guesser_reply_spec reply :
  ((exists e, parse_guesser_reply reply = Raise e) <->
   (no_line_starts "Group:" (reply_lines reply) \/
    no_line_starts "Category:" (reply_lines reply) \/
    exists gl, first_line_starting "Group:" (reply_lines reply) gl /\
               length (comma_split gl) <> 4)) /\
  (forall e, parse_guesser_reply reply = Raise e -> exists msg, e = ValueError msg) /\
  (forall group category,
      parse_guesser_reply reply = Ok (group, category) ->
      exists gl cl,
        first_line_starting "Group:" (reply_lines reply) gl /\
        first_line_starting "Category:" (reply_lines reply) cl /\
        group = List.map strip (comma_split gl) /\
        category = strip (replace "Category:" "" cl) /\
        length group = 4 /\
        Forall (fun w => strip w = w) group /\ strip category = category).
Proof.
  rewrite parse_guesser_reply_eq.
  destruct (List.find (startswith "Group:") (reply_lines reply)) as [gl |] eqn:G;
    destruct (List.find (startswith "Category:") (reply_lines reply)) as [cl |] eqn:C.
  - apply find_first_line in G, C.
    destruct (Nat.eqb_spec (length (comma_split gl)) 4) as [L | L].
    + split; [| split].
      * split; [intros (e & H); discriminate |].
        intros [N | [N | (gl0 & F & NL)]].
        -- destruct (first_line_excludes _ _ _ G N).
        -- destruct (first_line_excludes _ _ _ C N).
        -- rewrite (first_line_unique _ _ _ _ F G) in NL. contradiction.
      * intros e H. discriminate.
      * intros group category H. inversion H; subst. exists gl, cl.
        repeat split; try assumption.
        -- rewrite length_map. exact L.
        -- apply stripped_words.
        -- apply strip_idempotent.
    + split; [| split].
      * split; [| eauto]. intros _. right. right. exists gl. split; assumption.
      * intros e H. inversion H. eauto.
      * intros group category H. discriminate.
  - apply find_no_line in C. split; [| split].
    + split; [| eauto]. intros _. right. left. exact C.
    + intros e H. inversion H. eauto.
    + intros group category H. discriminate.
  - apply find_no_line in G. split; [| split].
    + split; [| eauto]. intros _. left. exact G.
    + intros e H. inversion H. eauto.
    + intros group category H. discriminate.
  - apply find_no_line in G. split; [| split].
    + split; [| eauto]. intros _. left. exact G.
    + intros e H. inversion H. eauto.
    + intros group category H. discriminate.
Qed.

Lemma parse_validator_reply_spec reply :
  ((exists e, parse_validator_reply reply = Raise e) <->
   (no_line_starts "Group:" (reply_lines reply) \/
    exists gl, first_line_starting "Group:" (reply_lines reply) gl /\
               length (comma_split gl) <> 4)) /\
  (forall e, parse_validator_reply reply = Raise e -> exists msg, e = ValueError msg) /\
  (forall group,
      parse_validator_reply reply = Ok group ->
      exists gl,
        first_line_starting "Group:" (reply_lines reply) gl /\
        group = List.map strip (comma_split gl) /\
        length group = 4 /\
        Forall (fun w => strip w = w) group).
Proof.
  rewrite parse_validator_reply_eq.
  destruct (List.find (startswith "Group:") (reply_lines reply)) as [gl |] eqn:G.
  - apply find_first_line in G.
    destruct (Nat.eqb_spec (length (comma_split gl)) 4) as [L | L].
    + split; [| split].
      * split; [intros (e & H); discriminate |].
        intros [N | (gl0 & F & NL)].
        -- destruct (first_line_excludes _ _ _ G N).
        -- rewrite (first_line_unique _ _ _ _ F G) in NL. contradiction.
      * intros e H. discriminate.
      * intros group H. inversion H; subst. exists gl.
        repeat split; try assumption.
        -- rewrite length_map. exact L.
        -- apply stripped_words.
    + split; [| split].
      * split; [| eauto]. intros _. right. exists gl. split; assumption.
      * intros e H. inversion H. eauto.
      * intros group H. discriminate.
  - apply find_no_line in G. split; [| split].
    + split; [| eauto]. intros _. left. exact G.
    + intros e H. inversion H. eauto.
    + intros group H. discriminate.
Qed.

(** C7.  On the lines of the stripped reply, [parse_guesser_reply]
    raises exactly when no line starts with [Group:], or no line starts
    with [Category:], or the first [Group:] line does not split at its
    commas into exactly 4 pieces, and what it raises is a [ValueError];
    otherwise it returns the 4 stripped pieces of that line and the
    stripped text of the first [Category:] line.  [parse_validator_reply]
    does the same with the [Group:] line alone. *)
Theorem parse_replies_spec reply :
  let lines := reply_lines reply in
  ((exists e, parse_guesser_reply reply = Raise e) <->
   (no_line_starts "Group:" lines \/ no_line_starts "Category:" lines \/
    exists gl, first_line_starting "Group:" lines gl /\
               length (comma_split gl) <> 4)) /\
  (forall e, parse_guesser_reply reply = Raise e -> exists msg, e = ValueError msg) /\
  (forall group category,
      parse_guesser_reply reply = Ok (group, category) ->
      exists gl cl,
        first_line_starting "Group:" lines gl /\
        first_line_starting "Category:" lines cl /\
        group = List.map strip (comma_split gl) /\
        category = strip (replace "Category:" "" cl) /\
        length group = 4 /\
        Forall (fun w => strip w = w) group /\ strip category = category) /\
  ((exists e, parse_validator_reply reply = Raise e) <->
   (no_line_starts "Group:" lines \/
    exists gl, first_line_starting "Group:" lines gl /\
               length (comma_split gl) <> 4)) /\
  (forall e, parse_validator_reply reply = Raise e -> exists msg, e = ValueError msg) /\
  (forall group,
      parse_validator_reply reply = Ok group ->
      exists gl,
        first_line_starting "Group:" lines gl /\
        group = List.map strip (comma_split gl) /\
        length group = 4 /\
        Forall (fun w => strip w = w) group).
Proof.
  intros lines. subst lines.
  destruct (parse_guesser_reply_spec reply) as (G1 & G2 & G3).
  destruct (parse_validator_reply_spec reply) as (V1 & V2 & V3).
  repeat split; try apply G1; try apply V1; assumption.
Qed.

(** ** The solver on canned agents *)

Local Abbreviation new_solver script := (mk_state Script [] script []).
Local Abbreviation demo_guess script :=
  (guess Script scripted plain_list_str demo_remaining demo_board 4 None
         (new_solver script)).
Local Abbreviation demo_attempts script :=
  (guess_attempts Script scripted plain_list_str demo_remaining demo_board 4
                  (new_solver script)).
Local Abbreviation first_attempt script :=
  (mk_attempt Script demo_remaining demo_board 4 1 (new_solver script)).
Local Abbreviation second_attempt script :=
  (mk_attempt Script demo_remaining demo_board 4 2
              (att_end Script scripted plain_list_str (first_attempt script))).


(** The agents never agree: fifteen attempts, forty-five queries. *)
Lemma guess_terminates_witness :
  length (queries Script
            (snd (demo_guess (List.concat
                    (List.repeat [fish_reply; other_validation; disagreed] 15)))))
  <= 0 + 45.
Proof.
  apply (proj1 (proj2 (proj2 (guess_terminates Script scripted plain_list_str
                         demo_remaining demo_board 4 None
                         (new_solver (List.concat
                            (List.repeat [fish_reply; other_validation; disagreed]
                                         15))))))).
Defined.

(** The consensus agent accepts a group the validator did not give:
    the guesser's group is the one returned. *)
Lemma guess_returns_guesser_pair_witness :
  fst (demo_guess [fish_reply; other_validation; agreed]) = Ok (fish_group, "Fish") /\
  exists a guesser_reply validator_reply consensus_reply n,
    last (demo_attempts [fish_reply; other_validation; agreed]) = Some a /\
    transcript Script scripted plain_list_str a
               guesser_reply validator_reply consensus_reply n /\
    parse_guesser_reply guesser_reply = Ok (fish_group, "Fish") /\
    parse_consensus_reply consensus_reply = true /\
    fish_group = guesser_group n /\ "Fish" = guesser_category n /\
    (validator_group n <> guesser_group n -> fish_group <> validator_group n).
Proof.
  split; [vm_compute; reflexivity |].
  apply (guess_returns_guesser_pair Script scripted plain_list_str
           demo_remaining demo_board 4 None
           (new_solver [fish_reply; other_validation; agreed])).
  vm_compute. reflexivity.
Defined.


(** The second attempt gets a reply of the guesser that does not parse. *)
Lemma parse_error_leaves_store_witness :
  In (second_attempt [fish_reply; other_validation; disagreed; chatter])
     (demo_attempts [fish_reply; other_validation; disagreed; chatter]) /\
  att_proposal Script scripted plain_list_str
               (second_attempt [fish_reply; other_validation; disagreed; chatter])
  = Raise (ValueError "GuesserAgent's reply is missing both 'Group' and 'Category'.") /\
  guesses Script (snd (demo_guess [fish_reply; other_validation; disagreed; chatter]))
  = [("Fish", [fish_group])].
Proof.
  split; [right; left; vm_compute; reflexivity |].
  split; [vm_compute; reflexivity |].
  destruct (parse_error_leaves_store Script scripted plain_list_str
              demo_remaining demo_board 4 None
              (new_solver [fish_reply; other_validation; disagreed; chatter])
              (second_attempt [fish_reply; other_validation; disagreed; chatter])
              (ValueError "GuesserAgent's reply is missing both 'Group' and 'Category'."))
    as (_ & _ & G & _).
  - right; left; vm_compute; reflexivity.
  - vm_compute; reflexivity.
  - rewrite G. vm_compute. reflexivity.
Defined.

Lemma demo_session script :
  session Script scripted plain_list_str (new_solver script)
          (demo_attempts script) (snd (demo_guess script)).
Proof.
  apply (session_guess Script scripted plain_list_str
           (new_solver script) [] (new_solver script) script
           demo_remaining demo_board 4 None).
  apply session_start.
Defined.

(** C2 as stated fails: after one attempt that reaches consensus the
    store holds the returned pair, and no attempt has failed the
    consensus check. *)
Lemma accepted_pair_is_recorded :
  ~ (forall c g,
        store_has (guesses Script (snd (demo_guess [fish_reply; fish_validation; agreed])))
                  c g ->
        exists a,
          In a (demo_attempts [fish_reply; fish_validation; agreed]) /\
          rejected Script scripted plain_list_str a c g).
Proof.
  intros H. destruct (H "Fish" fish_group) as (a & I & n & N & C & _).
  - exists [fish_group]. split; vm_compute; left; reflexivity.
  - destruct I as [<- | I]; [| vm_compute in I; exact I].
    vm_compute in N. inversion N; subst n. discriminate.
Qed.

Lemma store_records_judged_pairs_witness :
  guesses Script (new_solver [fish_reply; fish_validation; agreed]) = [] /\
  store_has (guesses Script (snd (demo_guess [fish_reply; fish_validation; agreed])))
            "Fish" fish_group.
Proof.
  split; [reflexivity |].
  apply (proj2 (proj2 (store_records_judged_pairs Script scripted plain_list_str
                         _ _ _ (demo_session [fish_reply; fish_validation; agreed])
                         eq_refl))
           (first_attempt [fish_reply; fish_validation; agreed])
           (mk_negotiation fish_group "Fish" fish_group true)).
  - left. reflexivity.
  - vm_compute. reflexivity.
  - reflexivity.
Defined.

Lemma rejected_pair_feeds_back_witness :
  rejected Script scripted plain_list_str
           (first_attempt [fish_reply; other_validation; disagreed;
                           fish_reply; fish_validation; agreed])
           "Fish" fish_group /\
  lists_pair (att_feedback Script plain_list_str
                (second_attempt [fish_reply; other_validation; disagreed;
                                 fish_reply; fish_validation; agreed]))
             "Fish" fish_group /\
  names_pair (att_feedback Script plain_list_str
                (second_attempt [fish_reply; other_validation; disagreed;
                                 fish_reply; fish_validation; agreed]))
             "Fish" "Bass" "Flounder" "Salmon" "Trout".
Proof.
  assert (R : rejected Script scripted plain_list_str
                (first_attempt [fish_reply; other_validation; disagreed;
                                fish_reply; fish_validation; agreed])
                "Fish" fish_group).
  { exists (mk_negotiation fish_group "Fish" other_group false).
    split; [vm_compute; reflexivity | repeat split]. }
  split; [exact R |].
  destruct (rejected_pair_feeds_back Script scripted plain_list_str
              _ _ _ []
              (first_attempt [fish_reply; other_validation; disagreed;
                              fish_reply; fish_validation; agreed])
              []
              (second_attempt [fish_reply; other_validation; disagreed;
                               fish_reply; fish_validation; agreed])
              [] "Fish" fish_group
              (demo_session [fish_reply; other_validation; disagreed;
                             fish_reply; fish_validation; agreed]))
    as (LP & (w1 & w2 & w3 & w4 & Eg & NP) & _).
  - vm_compute. reflexivity.
  - exact R.
  - split; [exact LP |]. unfold fish_group in Eg.
    injection Eg as <- <- <- <-. exact NP.
Defined.

Lemma parse_replies_spec_witness :
  parse_guesser_reply ("Group: Bass, Flounder, Salmon, Trout" ++ nl ++ "Category: Fish")
  = Ok (fish_group, "Fish") /\
  Forall (fun w => strip w = w) fish_group.
Proof.
  split; [vm_compute; reflexivity |].
  destruct (proj1 (proj2 (proj2 (parse_replies_spec
              ("Group: Bass, Flounder, Salmon, Trout" ++ nl ++ "Category: Fish"))))
              fish_group "Fish")
    as (gl & cl & _ & _ & _ & _ & _ & F & _).
  - vm_compute. reflexivity.
  - exact F.
Defined.

(** ** Further properties of the parsers *)

Lemma str_app_assoc (a b c : string) : (a ++ b) ++ c = a ++ b ++ c.
Proof.
  induction a as [| x a IH]; [reflexivity |].
  change (String x ((a ++ b) ++ c) = String x (a ++ b ++ c)).
  rewrite IH. reflexivity.
Qed.

Lemma str_app_nil_r (a : string) : a ++ "" = a.
Proof.
  induction a as [| x a IH]; [reflexivity |].
  change (String x (a ++ "") = String x a). rewrite IH. reflexivity.
Qed.

Lemma str_app_cons (x : ascii) (a b : string) : String x a ++ b = String x (a ++ b).
Proof. reflexivity. Qed.

Lemma has_char_app c a b : has_char c (a ++ b) = has_char c a || has_char c b.
Proof.
  induction a as [| x a IH]; [reflexivity |].
  rewrite str_app_cons. simpl. rewrite IH. apply orb_assoc.
Qed.

Lemma has_char_join c sep (l : list string) :
  has_char c sep = false ->
  Forall (fun w => has_char c w = false) l ->
  has_char c (join sep l) = false.
Proof.
  intros Hs F. unfold join. induction F as [| w l Hw F IH]; [reflexivity |].
  destruct l as [| w' l]; [exact Hw |].
  change (String.concat sep (w :: w' :: l))
    with (w ++ sep ++ String.concat sep (w' :: l)).
  rewrite !has_char_app, Hw, Hs, IH. reflexivity.
Qed.

(** *** [split] *)

Lemma split_no_sep sep s : has_char sep s = false -> split sep s = [s].
Proof.
  induction s as [| a s IH]; [reflexivity |].
  simpl. intros H. apply orb_false_iff in H as [H1 H2].
  rewrite H1, (IH H2). reflexivity.
Qed.

Lemma split_app_sep sep a b :
  has_char sep a = false -> split sep (a ++ String sep b) = a :: split sep b.
Proof.
  induction a as [| x a IH]; intros H.
  - change ("" ++ String sep b) with (String sep b). simpl.
    rewrite Ascii.eqb_refl. reflexivity.
  - simpl in H. apply orb_false_iff in H as [H1 H2].
    rewrite str_app_cons. simpl. rewrite H1, (IH H2). reflexivity.
Qed.

Lemma length_split sep s : length (split sep s) = S (count_char sep s).
Proof.
  induction s as [| a s IH]; [reflexivity |].
  simpl. destruct (Ascii.eqb a sep); simpl; [rewrite IH; reflexivity |].
  destruct (split sep s) as [| h t]; simpl in *; lia.
Qed.

(** *** [replace] *)

Lemma prefix_has_char c old s :
  String.prefix old s = true -> has_char c old = true -> has_char c s = true.
Proof.
  revert s. induction old as [| x old IH]; intros s P H; [discriminate |].
  destruct s as [| a s]; [discriminate |]. simpl in *.
  destruct (ascii_dec x a) as [-> | N]; [| discriminate].
  apply orb_true_iff in H as [H | H].
  - rewrite H. reflexivity.
  - rewrite (IH s P H). apply orb_true_r.
Qed.

Lemma replace_absent c old new s :
  has_char c old = true -> has_char c s = false -> replace old new s = s.
Proof.
  intros Ho. unfold replace. induction s as [| a s IH]; [reflexivity |].
  intros Hs. cbn [replace_from].
  destruct (String.prefix old (String a s)) eqn:P.
  - rewrite (prefix_has_char c _ _ P Ho) in Hs. discriminate.
  - simpl in Hs. apply orb_false_iff in Hs as [_ Hs]. rewrite (IH Hs). reflexivity.
Qed.

Lemma prefix_app_self old t : String.prefix old (old ++ t) = true.
Proof.
  induction old as [| x old IH]; [destruct t; reflexivity |].
  rewrite str_app_cons. simpl. destruct (ascii_dec x x); [exact IH | congruence].
Qed.

Lemma replace_from_skip old new x t :
  replace_from old new (String.length x) (x ++ t) = replace_from old new 0 t.
Proof.
  induction x as [| a x IH]; [reflexivity |].
  rewrite str_app_cons. simpl. exact IH.
Qed.

(** Taking out the occurrence a string opens with. *)
Lemma replace_leading (a : ascii) (old t : string) :
  replace (String a old) "" (String a old ++ t) = replace (String a old) "" t.
Proof.
  unfold replace. rewrite str_app_cons.
  change (replace_from (String a old) "" 0 (String a (old ++ t)))
    with (if String.prefix (String a old) (String a (old ++ t))
          then "" ++ replace_from (String a old) ""
                       (String.length (String a old) - 1) (old ++ t)
          else String a (replace_from (String a old) "" 0 (old ++ t))).
  rewrite <- str_app_cons, prefix_app_self.
  change (String.length (String a old) - 1) with (String.length old - 0).
  rewrite Nat.sub_0_r. apply replace_from_skip.
Qed.

Lemma count_replace_from c old s :
  old <> "" -> has_char c old = false ->
  forall skip suf,
    String.length suf = skip -> String.prefix suf s = true ->
    has_char c suf = false ->
    count_char c (replace_from old "" skip s) = count_char c s.
Proof.
  intros Ne Ho. induction s as [| a s IH]; intros skip suf L P Hs; [reflexivity |].
  destruct skip as [| k].
  - cbn [replace_from].
    destruct (String.prefix old (String a s)) eqn:Po.
    + destruct old as [| x old']; [congruence |].
      simpl in Po. destruct (ascii_dec x a) as [-> | N]; [| discriminate].
      simpl in Ho. apply orb_false_iff in Ho as [Ha Ho'].
      change ("" ++ ?z) with z.
      change (String.length (String a old') - 1) with (String.length old' - 0).
      rewrite Nat.sub_0_r.
      rewrite (IH (String.length old') old' eq_refl Po Ho').
      simpl. rewrite Ha. reflexivity.
    + simpl. rewrite (IH 0 "" eq_refl); [reflexivity | destruct s; reflexivity | reflexivity].
  - destruct suf as [| b suf']; [discriminate |].
    simpl in L. inversion L as [L'].
    simpl in P. destruct (ascii_dec b a) as [-> | N]; [| discriminate].
    simpl in Hs. apply orb_false_iff in Hs as [Ha Hs'].
    simpl. rewrite Ha. rewrite L'. apply (IH k suf' L' P Hs').
Qed.

Lemma count_comma_split (gl : string) :
  length (comma_split gl) = S (count_char comma gl).
Proof.
  unfold comma_split. rewrite length_split. f_equal.
  unfold replace.
  apply (count_replace_from comma "Group:" gl ltac:(discriminate) eq_refl 0 "" eq_refl);
    [destruct gl; reflexivity | reflexivity].
Qed.

(** *** [strip] *)

Lemma rstrip_app_keep (x y : string) :
  rstrip y <> "" -> rstrip (x ++ y) = x ++ rstrip y.
Proof.
  intros N. induction x as [| a x IH]; [reflexivity |].
  rewrite !str_app_cons. simpl. rewrite IH.
  destruct (x ++ rstrip y) as [| b r] eqn:E; [| reflexivity].
  destruct x; [| discriminate]. change (rstrip y = "") in E. congruence.
Qed.

Lemma rstrip_app_drop (x y : string) :
  rstrip y = "" -> rstrip (x ++ y) = rstrip x.
Proof.
  intros N. induction x as [| a x IH]; [exact N |].
  rewrite str_app_cons. simpl. rewrite IH. reflexivity.
Qed.

Lemma rstrip_head c s :
  is_space c = false -> exists t, rstrip (String c s) = String c t.
Proof.
  intros Sc. simpl. destruct (rstrip s); [rewrite Sc |]; eauto.
Qed.

Lemma stripped_both w : strip w = w -> lstrip w = w /\ rstrip w = w.
Proof.
  intros H. split.
  - destruct (lstrip_head w) as [E | (c & t & E & Sc)].
    + unfold strip in H. rewrite E in H. simpl in H. subst w. reflexivity.
    + unfold strip in H. rewrite E in H.
      destruct (rstrip_head c t Sc) as (t' & R). rewrite R in H.
      subst w. simpl. rewrite Sc. reflexivity.
  - rewrite <- H at 1. unfold strip. rewrite rstrip_idempotent. exact H.
Qed.

Lemma join_last sep (l : list string) :
  l <> [] -> exists pre w, In w l /\ join sep l = pre ++ w.
Proof.
  unfold join. induction l as [| x l IH]; [congruence |]. intros _.
  destruct l as [| y l].
  - exists "", x. split; [left; reflexivity | reflexivity].
  - destruct IH as (pre & w & I & E); [discriminate |].
    exists (x ++ sep ++ pre), w. split; [right; exact I |].
    change (String.concat sep (x :: y :: l))
      with (x ++ sep ++ String.concat sep (y :: l)).
    rewrite E, !str_app_assoc. reflexivity.
Qed.

Lemma split_join_words (words : list string) :
  words <> [] ->
  Forall (fun w => has_char comma w = false) words ->
  split comma (" " ++ join ", " words) = List.map (String " ") words.
Proof.
  intros N F. unfold join. induction F as [| w l Hw F IH]; [congruence |].
  destruct l as [| w' l].
  - simpl String.concat. apply split_no_sep. simpl. exact Hw.
  - change (String.concat ", " (w :: w' :: l))
      with (w ++ ", " ++ String.concat ", " (w' :: l)).
    change (" " ++ w ++ ", " ++ String.concat ", " (w' :: l))
      with (String " " w ++ String comma (" " ++ String.concat ", " (w' :: l))).
    rewrite split_app_sep by (simpl; exact Hw).
    rewrite IH by discriminate. reflexivity.
Qed.

Lemma strip_blank_words (words : list string) :
  Forall (fun w => strip w = w) words ->
  List.map strip (List.map (String " ") words) = words.
Proof.
  induction 1 as [| w l Hw F IH]; [reflexivity |].
  simpl List.map. rewrite IH. f_equal. exact Hw.
Qed.

Lemma plain_words_forall (words : list string) (P : string -> Prop) :
  Forall plain_word words -> (forall w, plain_word w -> P w) -> Forall P words.
Proof. intros F H. induction F; constructor; auto. Qed.

(** The group line of a reply in the expected format gives the words back. *)
Lemma comma_split_expected (words : list string) :
  words <> [] -> Forall plain_word words ->
  List.map strip (comma_split ("Group: " ++ join ", " words)) = words.
Proof.
  intros N F. unfold comma_split.
  change ("Group: " ++ join ", " words) with ("Group:" ++ " " ++ join ", " words).
  rewrite replace_leading.
  assert (NoColon : has_char colon (" " ++ join ", " words) = false).
  { rewrite has_char_app. apply orb_false_iff. split; [reflexivity |].
    apply has_char_join; [reflexivity |].
    apply (plain_words_forall _ _ F). intros w (_ & _ & _ & C & _). exact C. }
  rewrite (replace_absent colon "Group:" "" _ eq_refl NoColon).
  rewrite split_join_words;
    [| exact N
     | apply (plain_words_forall _ _ F); intros w (_ & _ & C & _); exact C].
  apply strip_blank_words.
  apply (plain_words_forall _ _ F). intros w (_ & S & _). exact S.
Qed.

Lemma group_line_no_newline (words : list string) :
  Forall plain_word words -> has_char newline ("Group: " ++ join ", " words) = false.
Proof.
  intros F. rewrite has_char_app.
  rewrite has_char_join; [reflexivity | reflexivity |].
  apply (plain_words_forall _ _ F). intros w (_ & _ & _ & _ & C). exact C.
Qed.

Lemma rstrip_group_line (words : list string) :
  words <> [] -> Forall plain_word words ->
  rstrip ("Group: " ++ join ", " words) = "Group: " ++ join ", " words.
Proof.
  intros N F. destruct (join_last ", " words N) as (pre & w & I & E).
  rewrite E, <- str_app_assoc.
  rewrite Forall_forall in F. destruct (F w ltac:(apply list_elem_of_In; exact I))
    as (Ne & S & _).
  apply stripped_both in S as [_ R].
  rewrite rstrip_app_keep; rewrite R; [reflexivity | exact Ne].
Qed.

(** X8.  A validator reply in the format the prompt asks for parses back:
    for plain words, [parse_validator_reply] of ["Group: "] followed by the
    words joined with [", "] returns these words when there are 4 of them,
    and raises when there is another number of them. *)
Theorem validator_reply_round_trip (words : list string) :
  words <> [] -> Forall plain_word words ->
  parse_validator_reply (expected_validator_reply words)
  = if (length words =? 4)%nat then Ok words
    else Raise (ValueError "ValidatorAgent's group does not contain exactly 4 words.").
Proof.
  intros N F. rewrite parse_validator_reply_eq.
  unfold reply_lines, expected_validator_reply, strip.
  change (lstrip ("Group: " ++ join ", " words)) with ("Group: " ++ join ", " words).
  rewrite (rstrip_group_line words N F).
  rewrite (split_no_sep newline _ (group_line_no_newline words F)).
  cbn [List.find]. unfold startswith.
  change ("Group: " ++ join ", " words) with ("Group:" ++ " " ++ join ", " words) at 1.
  rewrite prefix_app_self.
  change (fun s : string => rstrip (lstrip s)) with strip.
  pose proof (comma_split_expected words N F) as E.
  rewrite <- (length_map strip (comma_split _)), E. reflexivity.
Qed.

(** The end of the [Category:] line once the reply is stripped: the blank
    and the category, or nothing when the category is empty. *)
Lemma category_tail_cases (c : string) :
  rstrip c = c ->
  (c = "" /\ rstrip (String " " c) = "") \/
  (c <> "" /\ rstrip (String " " c) = String " " c).
Proof.
  intros R. simpl. rewrite R. destruct c as [| a c].
  - left. split; reflexivity.
  - right. split; [discriminate | reflexivity].
Qed.

Lemma expected_guesser_lines (words : list string) (category : string) :
  words <> [] -> Forall plain_word words -> plain_category category ->
  reply_lines (expected_guesser_reply words category)
  = ["Group: " ++ join ", " words; "Category:" ++ rstrip (String " " category)].
Proof.
  intros N F (S & Cc & Cn). apply stripped_both in S as [_ R].
  unfold reply_lines, expected_guesser_reply, strip.
  change (lstrip ("Group: " ++ join ", " words ++ nl ++ "Category: " ++ category))
    with ("Group: " ++ join ", " words ++ nl ++ "Category: " ++ category).
  assert (E : rstrip ("Group: " ++ join ", " words ++ nl ++ "Category: " ++ category)
              = ("Group: " ++ join ", " words)
                ++ String newline ("Category:" ++ rstrip (String " " category))).
  { change ("Group: " ++ join ", " words ++ nl ++ "Category: " ++ category)
      with ("Group: " ++ join ", " words ++ nl ++ "Category:" ++ String " " category).
    replace ("Group: " ++ join ", " words ++ nl ++ "Category:" ++ String " " category)
      with ((("Group: " ++ join ", " words) ++ nl ++ "Category:") ++ String " " category)
      by (rewrite !str_app_assoc; reflexivity).
    destruct (category_tail_cases category R) as [[-> T] | [Ne T]]; rewrite T.
    - rewrite rstrip_app_drop by reflexivity.
      rewrite <- str_app_assoc, rstrip_app_keep by discriminate.
      rewrite !str_app_assoc. reflexivity.
    - rewrite rstrip_app_keep by (rewrite T; discriminate).
      rewrite T, !str_app_assoc. reflexivity. }
  rewrite E. rewrite split_app_sep by (apply group_line_no_newline, F).
  rewrite split_no_sep; [reflexivity |].
  destruct (category_tail_cases category R) as [[-> T] | [Ne T]]; rewrite T;
    [reflexivity |].
  rewrite has_char_app. apply orb_false_iff. split; [reflexivity |].
  simpl. exact Cn.
Qed.

Lemma category_line_expected (category : string) :
  plain_category category ->
  strip (replace "Category:" "" ("Category:" ++ rstrip (String " " category)))
  = category.
Proof.
  intros (S & Cc & Cn). pose proof S as S'. apply stripped_both in S' as [_ R].
  rewrite replace_leading.
  destruct (category_tail_cases category R) as [[-> T] | [Ne T]]; rewrite T;
    [reflexivity |].
  rewrite (replace_absent colon "Category:" "" _ eq_refl) by (simpl; exact Cc).
  exact S.
Qed.

(** X9.  A guesser reply in the format the prompt asks for parses back:
    for plain words and a plain category, [parse_guesser_reply] of the line
    ["Group: "] with the words joined by [", "], followed by the line
    ["Category: "] with the category, returns these words and this category
    when there are 4 words, and raises the [ValueError] that gives their
    number when there is another number of them. *)
Theorem guesser_reply_round_trip (words : list string) (category : string) :
  words <> [] -> Forall plain_word words -> plain_category category ->
  parse_guesser_reply (expected_guesser_reply words category)
  = if (length words =? 4)%nat then Ok (words, category)
    else Raise (ValueError ("GuesserAgent's group contains "
                            ++ of_nat (length words)
                            ++ " words; expected exactly 4.")).
Proof.
  intros N F C. rewrite parse_guesser_reply_eq.
  rewrite (expected_guesser_lines words category N F C).
  assert (G : List.find (startswith "Group:")
                ["Group: " ++ join ", " words;
                 "Category:" ++ rstrip (String " " category)]
              = Some ("Group: " ++ join ", " words)).
  { cbn [List.find]. unfold startswith.
    change ("Group: " ++ join ", " words) with ("Group:" ++ " " ++ join ", " words) at 1.
    rewrite prefix_app_self. reflexivity. }
  assert (K : List.find (startswith "Category:")
                ["Group: " ++ join ", " words;
                 "Category:" ++ rstrip (String " " category)]
              = Some ("Category:" ++ rstrip (String " " category))).
  { cbn [List.find]. unfold startswith.
    change (String.prefix "Category:" ("Group: " ++ join ", " words)) with false.
    cbv iota. rewrite prefix_app_self. reflexivity. }
  rewrite G, K.
  pose proof (comma_split_expected words N F) as E.
  rewrite <- (length_map strip (comma_split _)), E.
  rewrite (category_line_expected category C). reflexivity.
Qed.

Lemma guesser_reply_round_trip_witness :
  Forall plain_word fish_group /\ plain_category "Fire ___" /\
  parse_guesser_reply
    ("Group: Bass, Flounder, Salmon, Trout" ++ nl ++ "Category: Fire ___")
  = Ok (fish_group, "Fire ___").
Proof.
  assert (F : Forall plain_word fish_group).
  { repeat constructor; try discriminate; reflexivity. }
  assert (C : plain_category "Fire ___") by (repeat split; reflexivity).
  split; [exact F |]. split; [exact C |].
  apply (guesser_reply_round_trip fish_group "Fire ___" ltac:(discriminate) F C).
Defined.

Lemma validator_reply_round_trip_witness :
  Forall plain_word other_group /\
  parse_validator_reply "Group: Bass, Flounder, Salmon, Ant" = Ok other_group.
Proof.
  assert (F : Forall plain_word other_group).
  { repeat constructor; try discriminate; reflexivity. }
  split; [exact F |].
  apply (validator_reply_round_trip other_group ltac:(discriminate) F).
Defined.

(** X10.  Whether a reply parses depends on its first [Group:] line only
    through the number of commas in it: [parse_validator_reply] returns
    exactly when that line exists and holds three commas, and
    [parse_guesser_reply] exactly when, in addition, a [Category:] line
    exists. *)
Theorem parse_needs_three_commas (reply : string) :
  ((exists group, parse_validator_reply reply = Ok group) <->
   (exists gl, first_line_starting "Group:" (reply_lines reply) gl /\
               count_char comma gl = 3)) /\
  ((exists r, parse_guesser_reply reply = Ok r) <->
   (exists gl cl, first_line_starting "Group:" (reply_lines reply) gl /\
                  count_char comma gl = 3 /\
                  first_line_starting "Category:" (reply_lines reply) cl)).
Proof.
  rewrite parse_validator_reply_eq, parse_guesser_reply_eq.
  destruct (List.find (startswith "Group:") (reply_lines reply)) as [gl |] eqn:G.
  - pose proof G as G'. apply find_first_line in G'.
    assert (L : (length (comma_split gl) =? 4)%nat = true <-> count_char comma gl = 3).
    { rewrite count_comma_split, Nat.eqb_eq. lia. }
    split.
    + split.
      * intros (g & H). exists gl. split; [exact G' |]. apply L.
        destruct (length (comma_split gl) =? 4)%nat; [reflexivity | discriminate].
      * intros (gl0 & F & C). rewrite (first_line_unique _ _ _ _ F G') in C.
        apply L in C. rewrite C. eauto.
    + destruct (List.find (startswith "Category:") (reply_lines reply)) as [cl |] eqn:K.
      * pose proof K as K'. apply find_first_line in K'. split.
        -- intros (r & H). exists gl, cl. split; [exact G' |]. split; [| exact K'].
           apply L. destruct (length (comma_split gl) =? 4)%nat;
             [reflexivity | discriminate].
        -- intros (gl0 & cl0 & F & C & _).
           rewrite (first_line_unique _ _ _ _ F G') in C.
           apply L in C. rewrite C. eauto.
      * apply find_no_line in K. split.
        -- intros (r & H). discriminate.
        -- intros (gl0 & cl0 & _ & _ & F). destruct (first_line_excludes _ _ _ F K).
  - apply find_no_line in G. split.
    + split; [intros (g & H); discriminate |].
      intros (gl0 & F & _). destruct (first_line_excludes _ _ _ F G).
    + split.
      * intros (r & H).
        destruct (List.find (startswith "Category:") (reply_lines reply)); discriminate.
      * intros (gl0 & cl0 & F & _). destruct (first_line_excludes _ _ _ F G).
Qed.

(** *** [parse_consensus_reply] *)

Lemma is_space_lower_char c : is_space (lower_char c) = is_space c.
Proof. destruct c as [[|] [|] [|] [|] [|] [|] [|] [|]]; reflexivity. Qed.

Lemma lower_char_idempotent c : lower_char (lower_char c) = lower_char c.
Proof. destruct c as [[|] [|] [|] [|] [|] [|] [|] [|]]; reflexivity. Qed.

Lemma lower_idempotent s : lower (lower s) = lower s.
Proof.
  induction s as [| c s IH]; [reflexivity |].
  simpl. rewrite lower_char_idempotent, IH. reflexivity.
Qed.

Lemma lstrip_lower s : lstrip (lower s) = lower (lstrip s).
Proof.
  induction s as [| c s IH]; [reflexivity |].
  simpl. rewrite is_space_lower_char. destruct (is_space c); [exact IH | reflexivity].
Qed.

Lemma rstrip_lower s : rstrip (lower s) = lower (rstrip s).
Proof.
  induction s as [| c s IH]; [reflexivity |].
  simpl. rewrite IH, is_space_lower_char.
  destruct (rstrip s); simpl; [destruct (is_space c) |]; reflexivity.
Qed.

Lemma strip_lower s : strip (lower s) = lower (strip s).
Proof. unfold strip. rewrite lstrip_lower, rstrip_lower. reflexivity. Qed.

Lemma prefix_iff (a s : string) :
  String.prefix a s = true <-> exists post, s = a ++ post.
Proof.
  revert s. induction a as [| x a IH]; intros s.
  - split; [intros _; exists s; reflexivity | intros _; destruct s; reflexivity].
  - destruct s as [| y s]; simpl.
    + split; [discriminate | intros (post & H); discriminate].
    + destruct (ascii_dec x y) as [-> | N].
      * split.
        -- intros P. apply IH in P as (post & ->). exists post. reflexivity.
        -- intros (post & H). rewrite str_app_cons in H. injection H as H2.
           apply IH. eauto.
      * split; [discriminate |].
        intros (post & H). rewrite str_app_cons in H. inversion H. congruence.
Qed.

Lemma contains_iff (sub s : string) :
  contains sub s = true <-> exists pre post, s = pre ++ sub ++ post.
Proof.
  induction s as [| c s IH].
  - cbn [contains]. rewrite orb_false_r. split.
    + intros P. apply prefix_iff in P as (post & H). exists "", post. exact H.
    + intros (pre & post & H). apply prefix_iff.
      destruct pre; [eauto | discriminate].
  - cbn [contains]. rewrite orb_true_iff. split.
    + intros [P | P].
      * apply prefix_iff in P as (post & H). exists "", post. exact H.
      * apply IH in P as (pre & post & H).
        exists (String c pre), post. rewrite H. reflexivity.
    + intros ([| x pre] & post & H).
      * left. apply prefix_iff. exists post. exact H.
      * right. rewrite str_app_cons in H. injection H as _ H2. apply IH. eauto.
Qed.

Lemma parse_consensus_reply_eq reply :
  parse_consensus_reply reply = contains "consensus reached" (lower (strip reply)).
Proof.
  unfold parse_consensus_reply.
  destruct (contains "consensus reached" (lower (strip reply))); [reflexivity |].
  destruct (contains "consensus not reached" (lower (strip reply))); reflexivity.
Qed.

(** X11.  [parse_consensus_reply] reads a reply as consensus reached
    exactly when the words [consensus reached] occur in it once it is
    stripped and put in lower case, whatever else it says; so two replies
    that differ only in the case of their letters are read alike, and
    blanks around a reply do not matter. *)
Theorem consensus_reply_reading (reply : string) :
  (parse_consensus_reply reply = true <->
   exists pre post, lower (strip reply) = pre ++ "consensus reached" ++ post) /\
  (forall other, lower other = lower reply ->
                 parse_consensus_reply other = parse_consensus_reply reply) /\
  parse_consensus_reply (strip reply) = parse_consensus_reply reply.
Proof.
  split; [| split].
  - rewrite parse_consensus_reply_eq. apply contains_iff.
  - intros other H. rewrite !parse_consensus_reply_eq, <- !strip_lower, H.
    reflexivity.
  - rewrite !parse_consensus_reply_eq, strip_idempotent. reflexivity.
Qed.

Lemma consensus_reply_reading_witness :
  lower "  CONSENSUS Reached: both groups match. "
  = lower "  consensus reached: both groups match. " /\
  parse_consensus_reply "  CONSENSUS Reached: both groups match. " = true.
Proof.
  split; [reflexivity |].
  rewrite (proj1 (proj2 (consensus_reply_reading
                           "  consensus reached: both groups match. "))
             "  CONSENSUS Reached: both groups match. " eq_refl).
  apply (proj1 (consensus_reply_reading "  consensus reached: both groups match. ")).
  exists "", ": both groups match.". reflexivity.
Defined.

(** ** Further properties of the solver *)

Section MoreOfModel.

Variable W : Type.
Variable ask : W -> Agent -> list Message -> Reply * W.
Variable fmt : list string -> string.

(** *** One query *)

(** X12.  [_get_agent_reply] returns a text exactly when the agent hands
    back that text as a [str], or as the [str] under ['reply'] of a
    [dict], and the text is not empty; it raises what the agent raises,
    and otherwise, for an empty text, a [dict] without such an entry or
    any other object, the [ValueError] that names the agent.  Either way
    it logs one query and leaves the store alone. *)
Theorem agent_reply_contract (agent : Agent) (prompt : string) (s : State W) :
  let messages := [mk_message "system" (system_message agent);
                   mk_message "user" prompt] in
  let reply := fst (ask (world W s) agent messages) in
  let r := _get_agent_reply W ask agent prompt s in
  (forall text,
      fst r = Ok text <->
      text <> "" /\ (reply = ReplyStr text \/ reply = ReplyDict (Some text))) /\
  (forall e,
      fst r = Raise e <->
      reply = ReplyRaises e \/
      (e = ValueError (agent_name agent ++ " failed to generate a valid reply.") /\
       (reply = ReplyStr "" \/ reply = ReplyDict (Some "") \/
        reply = ReplyDict None \/ reply = ReplyOther))) /\
  guesses W (snd r) = guesses W s /\
  queries W (snd r) = (queries W s ++ [user_query agent prompt])%list.
Proof.
  intros messages reply r. subst r reply. unfold _get_agent_reply, user_query.
  fold messages.
  destruct (ask (world W s) agent messages) as [reply w']. cbn [fst snd].
  destruct reply as [text | [text |] | | e0]; cbn [extract_reply_str].
  - destruct text as [| c text]; cbn [is_empty fst snd guesses queries];
      (split; [| split; [| split; reflexivity]]).
    + intros t. split; [discriminate |].
      intros (N & [H | H]); inversion H; subst; congruence.
    + intros e. split.
      * intros H. inversion H. right. split; [reflexivity | left; reflexivity].
      * intros [H | (-> & _)]; [discriminate | reflexivity].
    + intros t. split.
      * intros H. inversion H; subst. split; [discriminate | left; reflexivity].
      * intros (_ & [H | H]); inversion H; reflexivity.
    + intros e. split; [discriminate |].
      intros [H | (_ & [H | [H | [H | H]]])]; discriminate.
  - destruct text as [| c text]; cbn [is_empty fst snd guesses queries];
      (split; [| split; [| split; reflexivity]]).
    + intros t. split; [discriminate |].
      intros (N & [H | H]); inversion H; subst; congruence.
    + intros e. split.
      * intros H. inversion H. right. split; [reflexivity | right; left; reflexivity].
      * intros [H | (-> & _)]; [discriminate | reflexivity].
    + intros t. split.
      * intros H. inversion H; subst. split; [discriminate | right; reflexivity].
      * intros (_ & [H | H]); inversion H; reflexivity.
    + intros e. split; [discriminate |].
      intros [H | (_ & [H | [H | [H | H]]])]; discriminate.
  - cbn [fst snd guesses queries]. split; [| split; [| split; reflexivity]].
    + intros t. split; [discriminate | intros (_ & [H | H]); discriminate].
    + intros e. split.
      * intros H. inversion H. right. split; [reflexivity |]. do 2 right. left. reflexivity.
      * intros [H | (-> & _)]; [discriminate | reflexivity].
  - cbn [fst snd guesses queries]. split; [| split; [| split; reflexivity]].
    + intros t. split; [discriminate | intros (_ & [H | H]); discriminate].
    + intros e. split.
      * intros H. inversion H. right. split; [reflexivity |]. do 3 right. reflexivity.
      * intros [H | (-> & _)]; [discriminate | reflexivity].
  - cbn [fst snd guesses queries]. split; [| split; [| split; reflexivity]].
    + intros t. split; [discriminate | intros (_ & [H | H]); discriminate].
    + intros e. split.
      * intros H. inversion H. left. reflexivity.
      * intros [H | (_ & [H | [H | [H | H]]])]; try discriminate.
        inversion H. reflexivity.
Qed.

(** *** What a call returns and raises *)

Lemma parsed_group_shape reply g c :
  parse_guesser_reply reply = Ok (g, c) ->
  length g = 4 /\ Forall (fun w => strip w = w) g /\ strip c = c.
Proof.
  intros H. destruct (parse_guesser_reply_spec reply) as (_ & _ & S).
  destruct (S g c H) as (gl & cl & _ & _ & _ & _ & L & F & C).
  repeat split; assumption.
Qed.

Lemma judged_group_shape a c g :
  judged W ask fmt a c g -> length g = 4.
Proof.
  intros (n & N & <- & <-).
  apply negotiation_transcript in N as (gr & vr & cr & T).
  destruct T as (s1 & s2 & s3 & _ & P & _).
  apply (parsed_group_shape _ _ _ P).
Qed.

(** X13.  Whatever [group_size] is passed, a guess that [guess] returns
    has exactly 4 words, none of them with a blank at either end, and a
    category without blanks around it. *)
Theorem guess_returns_four_words rem ent gs metrics (s : State W) group category :
  fst (guess W ask fmt rem ent gs metrics s) = Ok (group, category) ->
  length group = 4 /\
  Forall (fun w => strip w = w) group /\
  strip category = category.
Proof.
  intros Hr.
  destruct (guess_last_attempt W ask fmt rem ent gs metrics s) as (a & _ & _ & F & _).
  rewrite Hr in F.
  pose proof (att_run_negotiation W ask fmt a) as H.
  destruct (att_negotiation W ask fmt a) as [n | e] eqn:N; destruct H as [O _];
    rewrite O in F; [| discriminate].
  unfold verdict_outcome in F.
  destruct (consensus_result n);
    [| destruct (att_number W a =? max_retries)%nat; discriminate].
  inversion F; subst group category.
  apply negotiation_transcript in N as (gr & vr & cr & T).
  destruct T as (s1 & s2 & s3 & _ & P & _).
  apply (parsed_group_shape _ _ _ P).
Qed.

Lemma get_agent_reply_raises agent prompt (s s' : State W) e :
  (forall w a m e0, fst (ask w a m) <> ReplyRaises e0) ->
  _get_agent_reply W ask agent prompt s = (Raise e, s') ->
  exists msg, e = ValueError msg.
Proof.
  intros NoErr. unfold _get_agent_reply.
  pose proof (NoErr (world W s) agent
                [mk_message "system" (system_message agent);
                 mk_message "user" prompt]) as NE.
  destruct (ask (world W s) agent _) as [reply w']. cbn [fst] in NE.
  destruct reply as [text | [text |] | | e0]; cbn [extract_reply_str].
  - destruct (is_empty text); intros H; inversion H; eauto.
  - destruct (is_empty text); intros H; inversion H; eauto.
  - intros H; inversion H; eauto.
  - intros H; inversion H; eauto.
  - destruct (NE e0). reflexivity.
Qed.

Lemma negotiate_raises rem ent gs (s : State W) e :
  (forall w a m e0, fst (ask w a m) <> ReplyRaises e0) ->
  fst (negotiate W ask fmt rem ent gs s) = Raise e ->
  exists msg, e = ValueError msg.
Proof.
  intros NoErr. rewrite negotiate_eq, propose_and_validate_eq, ask_guesser_eq.
  destruct (_get_agent_reply W ask GuesserAgent _ s) as [[gr | e1] s1] eqn:E1.
  - destruct (parse_guesser_reply gr) as [[g c] | e1] eqn:P1.
    + cbn [fst snd]. rewrite ask_validator_eq.
      destruct (_get_agent_reply W ask ValidatorAgent _ s1) as [[vr | e2] s2] eqn:E2.
      * destruct (parse_validator_reply vr) as [vg | e2] eqn:P2.
        -- cbn [fst snd]. rewrite ask_consensus_eq.
           destruct (_get_agent_reply W ask ConsensusAgent _ s2)
             as [[cr | e3] s3] eqn:E3; cbn [fst]; [discriminate |].
           intros H. inversion H; subst e3.
           apply (get_agent_reply_raises _ _ _ _ _ NoErr E3).
        -- cbn [fst]. intros H. inversion H; subst e2.
           destruct (parse_validator_reply_spec vr) as (_ & V & _). apply V, P2.
      * cbn [fst]. intros H. inversion H; subst e2.
        apply (get_agent_reply_raises _ _ _ _ _ NoErr E2).
    + cbn [fst]. intros H. inversion H; subst e1.
      destruct (parse_guesser_reply_spec gr) as (_ & G & _). apply G, P1.
  - cbn [fst]. intros H. inversion H; subst e1.
    apply (get_agent_reply_raises _ _ _ _ _ NoErr E1).
Qed.

(** X14.  When no call of an agent raises, every exception that [guess]
    raises is a [ValueError]. *)
Theorem guess_raises_value_error rem ent gs metrics (s : State W) e :
  (forall w a m e0, fst (ask w a m) <> ReplyRaises e0) ->
  fst (guess W ask fmt rem ent gs metrics s) = Raise e ->
  exists msg, e = ValueError msg.
Proof.
  intros NoErr Hr.
  destruct (guess_last_attempt W ask fmt rem ent gs metrics s) as (a & _ & _ & F & _).
  rewrite Hr in F.
  pose proof (att_run_negotiation W ask fmt a) as H.
  destruct (att_negotiation W ask fmt a) as [n | e'] eqn:N; destruct H as [O _];
    rewrite O in F.
  - unfold verdict_outcome in F. destruct (consensus_result n); [discriminate |].
    destruct (att_number W a =? max_retries)%nat; inversion F; eauto.
  - inversion F; subst e'. unfold att_negotiation in N.
    apply (negotiate_raises _ _ _ _ _ NoErr N).
Qed.

(** *** The log of a call *)

Lemma att_queries_extend (a : Attempt W) :
  queries W (att_end W ask fmt a)
  = (queries W (att_start W a) ++ att_queries W ask fmt a)%list.
Proof.
  destruct (att_proposal W ask fmt a) as [[[g c] vg] | e] eqn:P.
  - pose proof (proposal_queries W ask fmt a g c vg P) as Q.
    unfold att_queries. rewrite Q, drop_app_length. reflexivity.
  - apply proposal_raise in P as (_ & _ & qs & Q & _).
    unfold att_queries. rewrite Q, drop_app_length. reflexivity.
Qed.

Lemma loop_run_log rem ent gs ns s atts r :
  loop_run W ask fmt rem ent gs ns s atts r ->
  queries W (snd r)
  = (queries W s ++ List.concat (List.map (att_queries W ask fmt) atts))%list.
Proof.
  induction 1 as [s | k rest s v a O | k rest s e a O | k rest s atts r a O R IH];
    cbn [snd List.map List.concat].
  - rewrite app_nil_r. reflexivity.
  - rewrite app_nil_r. apply (att_queries_extend a).
  - rewrite app_nil_r. apply (att_queries_extend a).
  - rewrite IH, (att_queries_extend a), <- app_assoc. reflexivity.
Qed.

Lemma loop_run_returned rem ent gs ns s atts r v :
  loop_run W ask fmt rem ent gs ns s atts r -> fst r = Ok v ->
  Forall (fun a => length (att_queries W ask fmt a) = 3) atts.
Proof.
  assert (Three : forall a o, att_outcome W ask fmt a = Ok o ->
                              length (att_queries W ask fmt a) = 3).
  { intros a o O. destruct (outcome_Ok_proposal W ask fmt a o O) as (g & c & vg & P).
    unfold att_queries. rewrite (proposal_queries W ask fmt a g c vg P).
    rewrite drop_app_length. reflexivity. }
  induction 1 as [s | k rest s v' a O | k rest s e a O | k rest s atts r a O R IH];
    cbn [fst]; intros H; try discriminate.
  - constructor; [apply (Three a _ O) | constructor].
  - constructor; [apply (Three a _ O) | apply IH, H].
Qed.

(** X15.  A call of [guess] adds to the log the queries of its attempts,
    one attempt after the other, and nothing else; when it returns, that
    is exactly three queries for each attempt it ran. *)
Theorem guess_log rem ent gs metrics (s : State W) :
  let r := guess W ask fmt rem ent gs metrics s in
  let atts := guess_attempts W ask fmt rem ent gs s in
  queries W (snd r)
  = (queries W s ++ List.concat (List.map (att_queries W ask fmt) atts))%list /\
  (forall v, fst r = Ok v ->
             length (queries W (snd r)) = length (queries W s) + 3 * length atts).
Proof.
  intros r atts. pose proof (guess_run W ask fmt rem ent gs metrics s) as R.
  fold r in R. fold atts in R. split; [apply (loop_run_log _ _ _ _ _ _ _ R) |].
  intros v Hv. rewrite (loop_run_log _ _ _ _ _ _ _ R), length_app. f_equal.
  pose proof (loop_run_returned _ _ _ _ _ _ _ v R Hv) as F.
  clear R Hv. induction F as [| a l Ha F IH]; [reflexivity |].
  cbn [List.map List.concat]. rewrite length_app, Ha, IH. simpl. lia.
Qed.

(** *** The shape of the store *)

Lemma store_append_keys g c grp :
  List.map fst (store_append g c grp) = List.map fst g.
Proof.
  induction g as [| [k v] g IH]; [reflexivity |].
  simpl. destruct (String.eqb k c); simpl; [reflexivity | rewrite IH; reflexivity].
Qed.

Lemma store_append_absent (g l : Store) c grp :
  store_contains g c = false ->
  store_append (g ++ l)%list c grp = (g ++ store_append l c grp)%list.
Proof.
  unfold store_contains. induction g as [| [k v] g IH]; [reflexivity |].
  simpl. intros H. apply orb_false_iff in H as [H1 H2].
  rewrite H1, (IH H2). reflexivity.
Qed.

Lemma store_contains_key g c :
  store_contains g c = false -> c ∉ List.map fst g.
Proof.
  unfold store_contains. induction g as [| [k v] g IH]; simpl; intros H.
  - apply not_elem_of_nil.
  - apply orb_false_iff in H as [H1 H2]. apply not_elem_of_cons. split.
    + intros ->. rewrite String.eqb_refl in H1. discriminate.
    + apply IH, H2.
Qed.

Lemma store_append_count g c grp :
  store_contains g c = true ->
  length (stored_groups (store_append g c grp)) = S (length (stored_groups g)).
Proof.
  unfold store_contains, stored_groups.
  induction g as [| [k v] g IH]; simpl; intros H; [discriminate |].
  destruct (String.eqb k c); simpl in *.
  - rewrite !length_app. simpl. lia.
  - rewrite !length_app, (IH H). lia.
Qed.

Lemma store_append_nonempty g c grp :
  Forall (fun entry : string * list (list string) => snd entry <> []) g ->
  Forall (fun entry : string * list (list string) => snd entry <> [])
         (store_append g c grp).
Proof.
  induction 1 as [| [k v] g Hv F IH]; simpl; [constructor |].
  destruct (String.eqb k c); constructor; try assumption.
  simpl. destruct v; discriminate.
Qed.

Lemma record_guess_shape g c grp :
  record_guess g c grp =
  if store_contains g c then store_append g c grp else (g ++ [(c, [grp])])%list.
Proof.
  unfold record_guess. destruct (store_contains g c) eqn:E; [reflexivity |].
  cbn [negb]. rewrite (store_append_absent g _ c grp E). simpl.
  rewrite String.eqb_refl. reflexivity.
Qed.

Lemma record_guess_kept g c grp :
  well_kept g ->
  well_kept (record_guess g c grp) /\
  length (stored_groups (record_guess g c grp)) = S (length (stored_groups g)).
Proof.
  intros (ND & NE). rewrite record_guess_shape.
  destruct (store_contains g c) eqn:E.
  - split; [split |].
    + rewrite store_append_keys. exact ND.
    + apply store_append_nonempty, NE.
    + apply store_append_count, E.
  - split; [split |].
    + rewrite List.map_app. apply NoDup_app. split; [exact ND |]. split.
      * intros x Hx Hc. simpl in Hc. apply list_elem_of_singleton in Hc. subst x.
        apply (store_contains_key _ _ E Hx).
      * apply NoDup_singleton.
    + apply Forall_app. split; [exact NE |]. constructor; [discriminate | constructor].
    + unfold stored_groups. rewrite List.map_app, List.concat_app, length_app.
      simpl. lia.
Qed.

Lemma chain_kept g atts g' :
  chain W ask fmt g atts g' -> well_kept g ->
  well_kept g' /\
  length (stored_groups g')
  = length (stored_groups g) + length (List.filter (has_verdict W ask fmt) atts).
Proof.
  induction 1 as [g | a atts g' C IH]; intros K; [split; [exact K | simpl; lia] |].
  pose proof (att_run_negotiation W ask fmt a) as H.
  cbn [List.filter]. unfold has_verdict at 1.
  destruct (att_negotiation W ask fmt a) as [n | e]; destruct H as [_ E].
  - destruct (record_guess_kept _ (guesser_category n) (guesser_group n) K) as (K' & L).
    rewrite <- E in K', L. destruct (IH K') as (K'' & L'').
    split; [exact K'' |]. rewrite L'', L. simpl. lia.
  - rewrite <- E in K. rewrite <- E. apply IH, K.
Qed.

Lemma stored_groups_has g grp :
  In grp (stored_groups g) <-> exists c, store_has g c grp.
Proof.
  unfold stored_groups, store_has. rewrite in_concat. split.
  - intros (l & I & J). apply in_map_iff in I as ([c wgs] & <- & I).
    exists c, wgs. split; assumption.
  - intros (c & wgs & I & J). exists wgs. split; [| exact J].
    apply in_map_iff. exists (c, wgs). split; [reflexivity | exact I].
Qed.

(** X16.  In a session that starts with an empty store, the store stays
    a dict whose keys are distinct categories, none with an empty list;
    it holds one word group for every attempt that got a verdict of the
    consensus agent, a pair proposed twice being kept twice; and every
    word group in it has exactly 4 words. *)
Theorem store_shape (s : State W) atts (s' : State W) :
  session W ask fmt s atts s' ->
  guesses W s = [] ->
  NoDup (List.map fst (guesses W s')) /\
  Forall (fun entry : string * list (list string) => snd entry <> []) (guesses W s') /\
  length (stored_groups (guesses W s'))
  = length (List.filter (has_verdict W ask fmt) atts) /\
  Forall (fun grp : list string => length grp = 4) (stored_groups (guesses W s')).
Proof.
  intros S E. apply session_chain in S. rewrite E in S.
  destruct (chain_kept _ _ _ S) as ((ND & NE) & L).
  { split; [apply NoDup_nil_2 | constructor]. }
  repeat split; try assumption.
  apply Forall_forall. intros grp I.
  apply list_elem_of_In, stored_groups_has in I as (c & H).
  destruct (chain_origin W ask fmt _ _ _ _ _ S H) as [H0 | (a & _ & J)].
  - destruct H0 as (wgs & [] & _).
  - apply (judged_group_shape _ _ _ J).
Qed.

(** *** Feedback *)

(** X17.  An attempt sends feedback exactly when the store is not empty:
    on an empty store, as after [reset], the feedback is the empty text
    whatever words of the board are already solved, and the guesser is
    asked the prompt without any note. *)
Theorem feedback_only_with_store (a : Attempt W) :
  (att_feedback W fmt a = "" <-> guesses W (att_start W a) = []) /\
  (forall (s : State W),
      att_start W a = snd (reset W s) ->
      att_feedback W fmt a = "" /\
      head (att_queries W ask fmt a)
      = Some (user_query GuesserAgent
                (guesser_prompt "" (join ", " (att_remaining W a))
                                (att_group_size W a)))).
Proof.
  assert (Iff : att_feedback W fmt a = "" <-> guesses W (att_start W a) = []).
  { unfold att_feedback. split.
    - intros H. destruct (guesses W (att_start W a)) as [| e g] eqn:G; [reflexivity |].
      rewrite build_feedback_nonempty in H by discriminate. discriminate.
    - intros ->. reflexivity. }
  split; [exact Iff |].
  intros s Hs.
  assert (F : att_feedback W fmt a = "").
  { apply Iff. rewrite Hs. reflexivity. }
  split; [exact F |].
  destruct (att_queries_cases W ask fmt a) as [Q | [(c' & Q) | (g' & c' & vg' & Q)]];
    rewrite Q; unfold three_queries, att_remaining_str; rewrite F; reflexivity.
Qed.

End MoreOfModel.

(** *** The further properties on canned agents *)

(** A call with [group_size] 5 still returns four words. *)
Lemma guess_returns_four_words_witness :
  fst (guess Script scripted plain_list_str demo_remaining demo_board 5 None
             (new_solver [fish_reply; fish_validation; agreed]))
  = Ok (fish_group, "Fish") /\
  length fish_group = 4.
Proof.
  assert (H : fst (guess Script scripted plain_list_str demo_remaining demo_board 5 None
                         (new_solver [fish_reply; fish_validation; agreed]))
              = Ok (fish_group, "Fish")) by (vm_compute; reflexivity).
  split; [exact H |].
  apply (guess_returns_four_words Script scripted plain_list_str _ _ _ _ _ _ _ H).
Defined.

(** Agents that hand back [None] to every query. *)
Lemma guess_raises_value_error_witness :
  (forall w a m e0, fst (constant_agents ReplyOther w a m) <> ReplyRaises e0) /\
  fst (guess unit (constant_agents ReplyOther) plain_list_str
             demo_remaining demo_board 4 None (mk_state unit [] tt []))
  = Raise (ValueError "GuesserAgent failed to generate a valid reply.").
Proof.
  assert (N : forall w a m e0, fst (constant_agents ReplyOther w a m) <> ReplyRaises e0)
    by (intros w a m e0; discriminate).
  assert (H : fst (guess unit (constant_agents ReplyOther) plain_list_str
                         demo_remaining demo_board 4 None (mk_state unit [] tt []))
              = Raise (ValueError "GuesserAgent failed to generate a valid reply."))
    by (vm_compute; reflexivity).
  split; [exact N |].
  destruct (guess_raises_value_error unit (constant_agents ReplyOther) plain_list_str
              _ _ _ _ _ _ N H) as (msg & E).
  exact H.
Defined.

Lemma guess_log_witness :
  length (queries Script
            (snd (demo_guess [fish_reply; other_validation; disagreed;
                              fish_reply; fish_validation; agreed])))
  = 0 + 3 * 2.
Proof.
  apply (proj2 (guess_log Script scripted plain_list_str demo_remaining demo_board 4 None
                  (new_solver [fish_reply; other_validation; disagreed;
                               fish_reply; fish_validation; agreed]))
           (fish_group, "Fish")).
  vm_compute. reflexivity.
Defined.

(** The same pair, rejected and then accepted, is in the store twice. *)
Lemma store_shape_witness :
  guesses Script (new_solver [fish_reply; other_validation; disagreed;
                              fish_reply; fish_validation; agreed]) = [] /\
  length (stored_groups
            (guesses Script
               (snd (demo_guess [fish_reply; other_validation; disagreed;
                                 fish_reply; fish_validation; agreed])))) = 2.
Proof.
  split; [reflexivity |].
  rewrite (proj1 (proj2 (proj2 (store_shape Script scripted plain_list_str _ _ _
             (demo_session [fish_reply; other_validation; disagreed;
                            fish_reply; fish_validation; agreed]) eq_refl)))).
  vm_compute. reflexivity.
Defined.

Lemma feedback_only_with_store_witness :
  att_feedback Script plain_list_str
    (mk_attempt Script demo_remaining demo_board 4 1
       (snd (reset Script
               (mk_state Script [("Fish", [fish_group])] [] [])))) = "".
Proof.
  apply (proj2 (feedback_only_with_store Script scripted plain_list_str
                  (mk_attempt Script demo_remaining demo_board 4 1
                     (snd (reset Script
                             (mk_state Script [("Fish", [fish_group])] [] [])))))
           (mk_state Script [("Fish", [fish_group])] [] []) eq_refl).
Defined.

Lemma agent_reply_contract_witness :
  fst (_get_agent_reply Script scripted ConsensusAgent "Guesser Group: Bass"
         (new_solver [ReplyDict (Some "Consensus reached")]))
  = Ok "Consensus reached".
Proof.
  apply (proj1 (agent_reply_contract Script scripted ConsensusAgent "Guesser Group: Bass"
                  (new_solver [ReplyDict (Some "Consensus reached")]))
           "Consensus reached").
  split; [discriminate | right; reflexivity].
Defined.

Lemma parse_needs_three_commas_witness :
  exists group, parse_validator_reply "Group: Bass, Flounder, Salmon, and Trout" = Ok group.
Proof.
  apply (proj1 (parse_needs_three_commas "Group: Bass, Flounder, Salmon, and Trout")).
  exists "Group: Bass, Flounder, Salmon, and Trout". split; [| reflexivity].
  exists [], []. repeat split. intros l [].
Defined.

End GVCSolver.

(** ** Properties of the endpoint resolution *)

Module EndpointFacts.
Import Endpoint.

Lemma DEFAULTS_oai :
  DEFAULTS !! "oai" = Some (mk_info "https://api.openai.com/" "OPENAI_API_KEY").
Proof. unfold DEFAULTS. apply lookup_insert_eq. Qed.

Lemma DEFAULTS_groq :
  DEFAULTS !! "groq" = Some (mk_info "https://api.groq.com/openai/" "GROQ_API_KEY").
Proof.
  unfold DEFAULTS. rewrite lookup_insert_ne by discriminate. apply lookup_insert_eq.
Qed.

Lemma DEFAULTS_other (k : string) :
  k <> "oai" -> k <> "groq" -> DEFAULTS !! k = None.
Proof.
  intros H1 H2. unfold DEFAULTS.
  rewrite lookup_insert_ne by congruence.
  rewrite lookup_insert_ne by congruence.
  apply lookup_empty.
Qed.

(** C8.  [Endpoint("oai", ...)] and [Endpoint("groq", ...)] come out with
    the default URL of the key and with the value of [OPENAI_API_KEY],
    respectively [GROQ_API_KEY], as [api_key]; when that variable is not
    set the construction raises [OSError]; with any other [base_url] the
    fields are the ones given. *)
Theorem endpoint_resolution (env : gmap string string)
        (base_url model : string) (api_key : option string) :
  (base_url = "oai" ->
   new env base_url model api_key =
   match env !! "OPENAI_API_KEY" with
   | Some v => Ok (mk "https://api.openai.com/" model (Some v))
   | None => Raise (OSError "API Key OPENAI_API_KEY not found!")
   end) /\
  (base_url = "groq" ->
   new env base_url model api_key =
   match env !! "GROQ_API_KEY" with
   | Some v => Ok (mk "https://api.groq.com/openai/" model (Some v))
   | None => Raise (OSError "API Key GROQ_API_KEY not found!")
   end) /\
  (base_url <> "oai" -> base_url <> "groq" ->
   new env base_url model api_key = Ok (mk base_url model api_key)).
Proof.
  unfold new, post_init. cbn [Endpoint.base_url Endpoint.model Endpoint.api_key].
  split; [| split].
  - intros ->. rewrite DEFAULTS_oai. cbn [info_base_url info_api_key].
    destruct (env !! "OPENAI_API_KEY"); reflexivity.
  - intros ->. rewrite DEFAULTS_groq. cbn [info_base_url info_api_key].
    destruct (env !! "GROQ_API_KEY"); reflexivity.
  - intros H1 H2. rewrite (DEFAULTS_other base_url H1 H2). reflexivity.
Qed.

Lemma endpoint_resolution_witness :
  "groq" = "groq" /\
  new (<["GROQ_API_KEY" := "gsk-demo"]> ∅) "groq" "llama-3.2-90b-vision-preview" None
  = Ok (mk "https://api.groq.com/openai/" "llama-3.2-90b-vision-preview"
           (Some "gsk-demo")).
Proof.
  split; [reflexivity |].
  rewrite (proj1 (proj2 (endpoint_resolution
                           (<["GROQ_API_KEY" := "gsk-demo"]> ∅)
                           "groq" "llama-3.2-90b-vision-preview" None)) eq_refl).
  rewrite lookup_insert_eq. reflexivity.
Defined.

Example endpoint_missing_key :
  new ∅ "oai" "gpt-4o-mini" None = Raise (OSError "API Key OPENAI_API_KEY not found!").
Proof.
  unfold new, post_init. cbn [base_url]. rewrite DEFAULTS_oai.
  cbn [info_base_url info_api_key]. rewrite lookup_empty. reflexivity.
Qed.

(** *** Further properties: the request and the response *)

Section RespondFacts.

Variable Net : Type.
Variable post : Net -> Request -> PostOutcome * Net.
Variable py_str : Json -> string.

Lemma read_response_dict (d : gmap string Json) :
  read_response py_str (JDict d) =
  match d !! "error" with
  | Some err => Raise (ValueError ("Error in endpoint request!: " ++ py_str err))
  | None =>
      match d !! "choices" with
      | None =>
          Raise (ValueError ("Malformed response from endpoint!: Got: "
                             ++ py_str (JDict d)))
      | Some choices =>
          result_bind (json_first choices) (fun choice =>
          result_bind (json_item "message" choice) (fun msg =>
          json_item "content" msg))
      end
  end.
Proof.
  unfold read_response. cbn [json_contains json_item result_bind].
  destruct (d !! "error") as [err |] eqn:E.
  - rewrite bool_decide_true by eauto. reflexivity.
  - rewrite bool_decide_false by (intros [x Hx]; discriminate).
    cbn [result_bind].
    destruct (d !! "choices") as [ch |] eqn:C.
    + rewrite bool_decide_true by eauto. reflexivity.
    + rewrite bool_decide_false by (intros [x Hx]; discriminate). reflexivity.
Qed.

Lemma read_response_not_dict (j : Json) (c : Json) :
  (forall d, j <> JDict d) -> read_response py_str j <> Ok c.
Proof.
  intros N. unfold read_response.
  destruct j as [| b | t | s | l | d]; cbn [json_contains result_bind];
    try discriminate.
  - destruct (PyStr.contains "error" s); cbn [json_item result_bind];
      [discriminate |].
    destruct (PyStr.contains "choices" s); cbn [negb json_item result_bind];
      discriminate.
  - destruct (existsb _ l); cbn [json_item result_bind]; [discriminate |].
    destruct (existsb _ l); cbn [negb json_item result_bind]; discriminate.
  - destruct (N d). reflexivity.
Qed.

Lemma read_response_Ok (j c : Json) :
  read_response py_str j = Ok c <->
  exists d first rest m,
    j = JDict d /\ d !! "error" = None /\
    d !! "choices" = Some (JList (JDict first :: rest)) /\
    first !! "message" = Some (JDict m) /\ m !! "content" = Some c.
Proof.
  split.
  - intros H.
    destruct j as [| b | t | s | l | d];
      try (exfalso; revert H; apply read_response_not_dict; discriminate).
    rewrite read_response_dict in H.
    destruct (d !! "error") as [err |] eqn:E; [discriminate |].
    destruct (d !! "choices") as [ch |] eqn:C; [| discriminate].
    destruct ch as [| b | t | s | [| choice rest] | d']; try discriminate.
    + destruct s; discriminate.
    + cbn [json_first result_bind] in H.
      destruct choice as [| b | t | s | l | first]; try discriminate.
      cbn [json_item result_bind] in H.
      destruct (first !! "message") as [msg |] eqn:M; [| discriminate].
      cbn [result_bind] in H.
      destruct msg as [| b | t | s | l | m]; try discriminate.
      cbn [json_item] in H.
      destruct (m !! "content") as [c' |] eqn:K; [| discriminate].
      inversion H; subst c'.
      exists d, first, rest, m. repeat split; assumption.
  - intros (d & first & rest & m & -> & E & C & M & K).
    rewrite read_response_dict, E, C.
    cbn [json_first json_item result_bind]. rewrite M.
    cbn [json_item result_bind]. rewrite K. reflexivity.
Qed.

(** X5.  [respond] returns a value exactly when the POST gives a response
    whose JSON is an object with no entry [error], whose entry [choices] is
    a non-empty array, whose first element is an object with an entry
    [message] that is an object with an entry [content]; the value returned
    is that [content].  A JSON array, text, number, boolean or null never
    makes it return. *)
Theorem respond_returns (self : t) (message : string) (system_prompt : option string)
        (net : Net) (c : Json) :
  fst (respond Net post py_str self message system_prompt net) = Ok c <->
  exists d first rest m,
    fst (post net (build_request self message system_prompt))
    = Response (Ok (JDict d)) /\
    d !! "error" = None /\
    d !! "choices" = Some (JList (JDict first :: rest)) /\
    first !! "message" = Some (JDict m) /\ m !! "content" = Some c.
Proof.
  unfold respond.
  destruct (post net (build_request self message system_prompt))
    as [[e | [j | e]] net'] eqn:P; cbn [fst].
  - split; [discriminate | intros (d & f & r & m & H & _); discriminate].
  - rewrite read_response_Ok. split.
    + intros (d & f & r & m & -> & H). exists d, f, r, m. split; [reflexivity | exact H].
    + intros (d & f & r & m & H & H'). inversion H; subst j.
      exists d, f, r, m. split; [reflexivity | exact H'].
  - split; [discriminate | intros (d & f & r & m & H & _); discriminate].
Qed.

(** X6.  When the response is a JSON object with an entry [error],
    [respond] raises the [ValueError] that carries that entry, whatever the
    object holds under [choices]; when the object has neither [error] nor
    [choices], it raises the [ValueError] for a malformed response. *)
Theorem respond_error_first (self : t) (message : string)
        (system_prompt : option string) (net : Net) (d : gmap string Json) :
  fst (post net (build_request self message system_prompt)) = Response (Ok (JDict d)) ->
  (forall err, d !! "error" = Some err ->
     fst (respond Net post py_str self message system_prompt net)
     = Raise (ValueError ("Error in endpoint request!: " ++ py_str err))) /\
  (d !! "error" = None -> d !! "choices" = None ->
     fst (respond Net post py_str self message system_prompt net)
     = Raise (ValueError ("Malformed response from endpoint!: Got: "
                          ++ py_str (JDict d)))).
Proof.
  intros P. unfold respond.
  destruct (post net (build_request self message system_prompt)) as [o net'].
  cbn [fst] in P. subst o. cbn [fst]. rewrite read_response_dict. split.
  - intros err E. rewrite E. reflexivity.
  - intros E C. rewrite E, C. reflexivity.
Qed.

End RespondFacts.

Lemma respond_returns_witness :
  fst (respond unit (constant_net
                  (Response (Ok (JDict
                     (<["choices" :=
                          JList [JDict (<["message" :=
                                    JDict (<["content" := JStr "Bass, Trout"]> ∅)]> ∅)]]>
                        ∅)))))
               no_text (mk "http://localhost:11434" "llama3" None)
               "Words: Bass, Trout" None tt)
  = Ok (JStr "Bass, Trout").
Proof.
  apply (respond_returns unit).
  eexists _, _, _, _. split; [reflexivity |].
  split; [rewrite lookup_insert_ne by discriminate; apply lookup_empty |].
  split; [apply lookup_insert_eq |].
  split; apply lookup_insert_eq.
Defined.

Lemma respond_error_first_witness :
  fst (respond unit (constant_net
                  (Response (Ok (JDict
                     (<["error" := JStr "rate limit"]>
                        (<["choices" := JList []]> ∅))))))
               no_text (mk "http://localhost:11434" "llama3" None)
               "Words: Bass, Trout" None tt)
  = Raise (ValueError ("Error in endpoint request!: " ++ no_text (JStr "rate limit"))).
Proof.
  apply (proj1 (respond_error_first unit
                  (constant_net
                     (Response (Ok (JDict
                        (<["error" := JStr "rate limit"]>
                           (<["choices" := JList []]> ∅))))))
                  no_text (mk "http://localhost:11434" "llama3" None)
                  "Words: Bass, Trout" None tt _ eq_refl)).
  apply lookup_insert_eq.
Defined.

(** X7.  An endpoint built from the key ["oai"] or ["groq"] posts to the
    default URL followed by [/v1/chat/completions], with two slashes in a
    row since the default URLs end in one, and always sends the value of
    the environment variable as bearer token, whatever [api_key] was
    given to the constructor. *)
Theorem resolved_endpoint_request (env : gmap string string) (key model : string)
        (api_key : option string) (self : t)
        (message : string) (system_prompt : option string) :
  key = "oai" \/ key = "groq" ->
  new env key model api_key = Ok self ->
  exists url variable token,
    DEFAULTS !! key = Some (mk_info url variable) /\
    env !! variable = Some token /\
    req_url (build_request self message system_prompt)
    = url ++ "/v1/chat/completions" /\
    (exists host, url = host ++ "/") /\
    req_headers (build_request self message system_prompt)
    = [("Content-Type", "application/json"); ("Authorization", "Bearer " ++ token)] /\
    req_model (build_request self message system_prompt) = model.
Proof.
  intros K H. unfold new, post_init in H.
  cbn [Endpoint.base_url Endpoint.model Endpoint.api_key] in H.
  destruct K as [-> | ->].
  - rewrite DEFAULTS_oai in *. cbn [info_base_url info_api_key] in H.
    destruct (env !! "OPENAI_API_KEY") as [token |] eqn:E; [| discriminate].
    inversion H; subst self.
    exists "https://api.openai.com/", "OPENAI_API_KEY", token.
    repeat split; try reflexivity; try assumption.
    exists "https://api.openai.com". reflexivity.
  - rewrite DEFAULTS_groq in *. cbn [info_base_url info_api_key] in H.
    destruct (env !! "GROQ_API_KEY") as [token |] eqn:E; [| discriminate].
    inversion H; subst self.
    exists "https://api.groq.com/openai/", "GROQ_API_KEY", token.
    repeat split; try reflexivity; try assumption.
    exists "https://api.groq.com/openai". reflexivity.
Qed.

Lemma resolved_endpoint_request_witness :
  req_url (build_request
             (mk "https://api.groq.com/openai/" "llama" (Some "gsk-demo"))
             "Words: Bass, Trout" None)
  = "https://api.groq.com/openai//v1/chat/completions".
Proof.
  destruct (resolved_endpoint_request
              (<["GROQ_API_KEY" := "gsk-demo"]> ∅) "groq" "llama" (Some "other")
              (mk "https://api.groq.com/openai/" "llama" (Some "gsk-demo"))
              "Words: Bass, Trout" None)
    as (url & variable & token & D & _ & U & _).
  - right. reflexivity.
  - unfold new, post_init. cbn [base_url]. rewrite DEFAULTS_groq.
    cbn [info_base_url info_api_key]. rewrite lookup_insert_eq. reflexivity.
  - rewrite DEFAULTS_groq in D. inversion D; subst. exact U.
Defined.

End EndpointFacts.

(** ** Properties of the solve counter *)

Module MetricsFacts.
Import Metrics.

Lemma py_index_lt {A : Type} (l : list A) (level : Z) (i : nat) :
  py_index l level = Some i -> i < length l.
Proof.
  unfold py_index. intros H.
  destruct ((0 <=? level) && (level <? Z.of_nat (length l)))%Z eqn:E1.
  - inversion H; subst. apply andb_true_iff in E1 as [? ?]. lia.
  - destruct ((- Z.of_nat (length l) <=? level) && (level <? 0))%Z eqn:E2;
      [| discriminate].
    inversion H; subst. apply andb_true_iff in E2 as [? ?]. lia.
Qed.

Lemma add_solve_solved (m : t) (level : Z) :
  solved m level -> add_solve m level = Ok m.
Proof.
  intros (i & P & S). unfold add_solve. rewrite P, S. reflexivity.
Qed.

Lemma counted_add_solve ppc m level :
  counted ppc m -> counted ppc (after_add_solve m level).
Proof.
  intros (ND & P & C & S). unfold after_add_solve, add_solve.
  destruct (py_index (solves m) level) as [i |] eqn:I; [| repeat split; assumption].
  destruct (solves m !! i) as [[|] |] eqn:L; try (repeat split; assumption).
  assert (Fresh : ~ In level (solve_order m)).
  { intros In_. destruct (S level In_) as (i' & I' & L'). congruence. }
  pose proof (py_index_lt _ _ _ I) as Lt.
  unfold counted. cbn [solve_order points points_per_correct].
  split; [| split; [| split]].
  - apply NoDup_app. split; [exact ND |]. split.
    + intros x Hx Hx'. apply list_elem_of_singleton in Hx'. subst x.
      apply Fresh. apply list_elem_of_In. exact Hx.
    + apply NoDup_singleton.
  - rewrite length_app. simpl. rewrite C in *. lia.
  - exact C.
  - intros l Hl. unfold solved. cbn [solves]. unfold py_index in *.
    rewrite length_insert.
    apply in_app_or in Hl as [Hl | [<- | []]].
    + destruct (S l Hl) as (i' & I' & L'). exists i'. split; [exact I' |].
      destruct (decide (i = i')) as [<- | N].
      * apply list_lookup_insert_eq. exact Lt.
      * rewrite list_lookup_insert_ne by exact N. exact L'.
    + exists i. split; [exact I |]. apply list_lookup_insert_eq. exact Lt.
Qed.

Lemma counted_reachable tl ppc pen m :
  reachable (init tl ppc pen) m -> counted ppc m.
Proof.
  induction 1 as [| m level R IH | m R IH | m name count R IH].
  - unfold counted, init. simpl. repeat split.
    + constructor.
    + lia.
    + intros level [].
  - apply counted_add_solve, IH.
  - exact IH.
  - exact IH.
Qed.

(** C10.  On any object, [add_solve] of a level that is marked solved
    changes nothing.  Hence, whatever calls are made on a new [Metrics],
    no level is twice in [solve_order], and [points] is
    [points_per_correct] times the length of [solve_order]. *)
Theorem add_solve_idempotent :
  (forall (m : t) (level : Z), solved m level -> add_solve m level = Ok m) /\
  (forall (tl ppc pen : Z) (m : t),
      reachable (init tl ppc pen) m ->
      NoDup (solve_order m) /\
      points m = (points_per_correct m * Z.of_nat (length (solve_order m)))%Z).
Proof.
  split; [apply add_solve_solved |].
  intros tl ppc pen m R. destruct (counted_reachable _ _ _ _ R) as (ND & P & C & _).
  split; [exact ND |]. rewrite C. exact P.
Qed.

Lemma add_solve_idempotent_witness :
  solved (after_add_solve default 2) 2 /\
  add_solve (after_add_solve default 2) 2 = Ok (after_add_solve default 2) /\
  NoDup (solve_order (after_add_solve (after_add_solve default 2) (-2))).
Proof.
  assert (S : solved (after_add_solve default 2) 2).
  { exists 2. split; vm_compute; reflexivity. }
  split; [exact S |]. split.
  - apply (proj1 add_solve_idempotent _ _ S).
  - apply (proj2 add_solve_idempotent 4%Z 5%Z 1%Z).
    apply reach_add_solve, reach_add_solve, reach_init.
Defined.

(** A negative level is the same position counted from the end: it is
    not recorded a second time. *)
Example add_solve_negative_level :
  solve_order (after_add_solve (after_add_solve default 2) (-2)) = [2%Z] /\
  points (after_add_solve (after_add_solve default 2) (-2)) = 5%Z /\
  add_solve default 4 = Raise (IndexError "list index out of range").
Proof. repeat split; vm_compute; reflexivity. Qed.

(** *** Further properties of the counter *)

Lemma filter_true_insert (l : list bool) (i : nat) :
  l !! i = Some false ->
  length (List.filter (fun b : bool => b) (<[i := true]> l))
  = S (length (List.filter (fun b : bool => b) l)).
Proof.
  revert i. induction l as [| b l IH]; intros i H; [destruct i; discriminate |].
  destruct i as [| i]; simpl in *.
  - inversion H; subst. reflexivity.
  - destruct b; simpl; rewrite (IH i H); reflexivity.
Qed.

Lemma filter_true_le (l : list bool) :
  length (List.filter (fun b : bool => b) l) <= length l.
Proof. induction l as [| [] l IH]; simpl; lia. Qed.

Lemma slotted_add_solve ppc pen m level :
  slotted ppc pen m -> slotted ppc pen (after_add_solve m level).
Proof.
  intros (L & S & P & F). unfold after_add_solve, add_solve.
  destruct (py_index (solves m) level) as [i |] eqn:I; [| repeat split; assumption].
  destruct (solves m !! i) as [[|] |] eqn:E; try (repeat split; assumption).
  unfold slotted, sum_solves. cbn [solves solve_order penalty_per_failed_guess failed_guesses].
  repeat split; try assumption.
  - rewrite length_insert. exact L.
  - rewrite (filter_true_insert _ _ E), length_app. unfold sum_solves in S.
    rewrite S. simpl. lia.
Qed.

Lemma slotted_reachable tl ppc pen m :
  reachable (init tl ppc pen) m -> slotted ppc pen m.
Proof.
  induction 1 as [| m level R IH | m R IH | m name count R IH].
  - unfold slotted, sum_solves, init. simpl. repeat split. lia.
  - apply slotted_add_solve, IH.
  - destruct IH as (L & S & P & F). unfold slotted, sum_solves in *. simpl.
    repeat split; try assumption. lia.
  - exact IH.
Qed.

(** X1.  On an object reached from a new [Metrics], whatever
    [total_levels] was given, [add_solve] raises exactly for the levels
    below -4 and from 4 on; what it raises is [IndexError], with the
    message of a list index out of range for a level that fits 64 bits and
    the message of an [int] that does not fit an index otherwise, and the
    object is left as it was. *)
Theorem add_solve_index_error (tl ppc pen : Z) (m : t) (level : Z) :
  reachable (init tl ppc pen) m ->
  ((exists e, add_solve m level = Raise e) <-> (level < -4 \/ 4 <= level)%Z) /\
  (forall e, add_solve m level = Raise e ->
             after_add_solve m level = m /\
             ((- 2 ^ 63 <= level < 2 ^ 63)%Z ->
              e = IndexError "list index out of range") /\
             ((level < - 2 ^ 63 \/ 2 ^ 63 <= level)%Z ->
              e = IndexError "cannot fit 'int' into an index-sized integer")).
Proof.
  intros R. destruct (slotted_reachable _ _ _ _ R) as (L & _).
  unfold after_add_solve, add_solve, py_index. rewrite L.
  change (Z.of_nat 4) with 4%Z. change (Z.opp 4) with (-4)%Z.
  destruct ((0 <=? level) && (level <? 4))%Z eqn:E1.
  - apply andb_true_iff in E1 as [A B].
    apply Z.leb_le in A. apply Z.ltb_lt in B.
    assert (Lt : Z.to_nat level < length (solves m)) by lia.
    apply lookup_lt_is_Some in Lt as [b Hb]. rewrite Hb.
    split.
    + split; [| lia]. intros (e & H). destruct b; discriminate.
    + intros e H. destruct b; discriminate.
  - destruct ((-4 <=? level) && (level <? 0))%Z eqn:E2.
    + apply andb_true_iff in E2 as [A B].
      apply Z.leb_le in A. apply Z.ltb_lt in B.
      assert (Lt : Z.to_nat (level + 4) < length (solves m)) by lia.
      apply lookup_lt_is_Some in Lt as [b Hb]. rewrite Hb.
      split.
      * split; [| lia]. intros (e & H). destruct b; discriminate.
      * intros e H. destruct b; discriminate.
    + split.
      * split; [| eauto]. intros _.
        apply andb_false_iff in E1. apply andb_false_iff in E2.
        rewrite !Z.leb_gt, !Z.ltb_ge in *. lia.
      * intros e H. inversion H. split; [reflexivity |].
        unfold index_error_message.
        destruct ((- 2 ^ 63 <=? level) && (level <? 2 ^ 63))%Z eqn:E3.
        -- split; [reflexivity |]. intros O.
           apply andb_true_iff in E3 as [A B].
           apply Z.leb_le in A. apply Z.ltb_lt in B. lia.
        -- split; [| reflexivity]. intros [A B].
           apply andb_false_iff in E3 as [E3 | E3];
             [apply Z.leb_gt in E3 | apply Z.ltb_ge in E3]; lia.
Qed.

Lemma add_solve_index_error_witness :
  reachable (init 6 5 1) (after_add_solve (init 6 5 1) 0) /\
  add_solve (after_add_solve (init 6 5 1) 0) 4
  = Raise (IndexError "list index out of range") /\
  add_solve (after_add_solve (init 6 5 1) 0) (2 ^ 63)
  = Raise (IndexError "cannot fit 'int' into an index-sized integer").
Proof.
  assert (R : reachable (init 6 5 1) (after_add_solve (init 6 5 1) 0))
    by apply reach_add_solve, reach_init.
  split; [exact R |]. split.
  - destruct (proj2 (proj1 (add_solve_index_error 6 5 1 _ 4 R))) as (e & H);
      [right; lia |].
    rewrite H. f_equal.
    apply (proj1 (proj2 (proj2 (add_solve_index_error 6 5 1 _ 4 R) e H))). lia.
  - destruct (proj2 (proj1 (add_solve_index_error 6 5 1 _ (2 ^ 63) R))) as (e & H);
      [right; lia |].
    rewrite H. f_equal.
    apply (proj2 (proj2 (proj2 (add_solve_index_error 6 5 1 _ (2 ^ 63) R) e H))).
    right. lia.
Defined.

(** X2.  On an object reached from a new [Metrics], [solves] keeps its 4
    slots, the number of slots marked solved is the length of
    [solve_order], so at most 4 levels are ever recorded, and with a
    non-negative [points_per_correct] the points stay between 0 and 4 times
    that value. *)
Theorem solved_levels_counted (tl ppc pen : Z) (m : t) :
  reachable (init tl ppc pen) m ->
  length (solves m) = 4 /\
  sum_solves m = length (solve_order m) /\
  length (solve_order m) <= 4 /\
  ((0 <= ppc)%Z -> (0 <= points m <= 4 * ppc)%Z).
Proof.
  intros R. destruct (slotted_reachable _ _ _ _ R) as (L & S & _ & _).
  destruct (counted_reachable _ _ _ _ R) as (_ & P & _ & _).
  assert (B : length (solve_order m) <= 4).
  { rewrite <- S, <- L. apply filter_true_le. }
  repeat split; try assumption; rewrite P; nia.
Qed.

Lemma solved_levels_counted_witness :
  sum_solves (after_add_solve (after_add_solve (init 6 5 1) 1) (-3)) = 1.
Proof.
  rewrite (proj1 (proj2 (solved_levels_counted 6 5 1 _
             (reach_add_solve _ _ (-3)%Z (reach_add_solve _ _ 1%Z (reach_init _)))))).
  vm_compute. reflexivity.
Defined.

(** X3.  [final_points] is never negative.  On an object reached from a
    new [Metrics] with non-negative settings it is at most [points], hence
    at most 4 times [points_per_correct]; one more failed guess never
    raises it and lowers it by at most the penalty. *)
Theorem final_points_bounds (tl ppc pen : Z) (m : t) :
  reachable (init tl ppc pen) m ->
  (0 <= ppc)%Z -> (0 <= pen)%Z ->
  (0 <= final_points m <= points m)%Z /\
  (final_points m <= 4 * ppc)%Z /\
  (final_points m - pen <= final_points (increment_failed_guesses m)
   <= final_points m)%Z.
Proof.
  intros R Hc Hp. destruct (slotted_reachable _ _ _ _ R) as (L & S & P & F).
  destruct (counted_reachable _ _ _ _ R) as (_ & Pt & _ & _).
  assert (B : (0 <= points m <= 4 * ppc)%Z).
  { pose proof (filter_true_le (solves m)) as Le. unfold sum_solves in S.
    rewrite S, L in Le. rewrite Pt. nia. }
  unfold final_points, increment_failed_guesses.
  cbn [points failed_guesses penalty_per_failed_guess]. rewrite P.
  repeat split; nia.
Qed.

Lemma final_points_bounds_witness :
  final_points (increment_failed_guesses (after_add_solve default 0)) = 4%Z /\
  (final_points (increment_failed_guesses (after_add_solve default 0)) <= 4 * 5)%Z.
Proof.
  split; [vm_compute; reflexivity |].
  apply (final_points_bounds 4 5 1 _
           (reach_failed _ _ (reach_add_solve _ _ 0%Z (reach_init _)))); lia.
Defined.

Lemma tokens_add_lookup m name count other :
  tokens_used (add_tokens m name count) !! other =
  if String.eqb name other
  then Some (match tokens_used m !! name with Some n => n | None => 0 end + count)%Z
  else tokens_used m !! other.
Proof.
  unfold add_tokens. cbn [tokens_used].
  destruct (String.eqb_spec name other) as [-> | N].
  - apply lookup_insert_eq.
  - apply lookup_insert_ne. exact N.
Qed.

Lemma tokens_under_absent name calls :
  existsb (fun call : string * Z => String.eqb (fst call) name) calls = false ->
  tokens_under name calls = 0%Z.
Proof.
  induction calls as [| [n c] calls IH]; simpl; intros H; [reflexivity |].
  apply orb_false_iff in H as [H1 H2]. rewrite H1. apply IH, H2.
Qed.

Lemma add_tokens_all_lookup calls m name :
  tokens_used (add_tokens_all m calls) !! name =
  if existsb (fun call => String.eqb (fst call) name) calls
  then Some (match tokens_used m !! name with Some n => n | None => 0 end
             + tokens_under name calls)%Z
  else tokens_used m !! name.
Proof.
  unfold add_tokens_all. revert m.
  induction calls as [| [n c] calls IH]; intros m; [reflexivity |].
  simpl List.fold_left. rewrite IH. simpl existsb. simpl tokens_under.
  rewrite !tokens_add_lookup.
  destruct (String.eqb_spec n name) as [-> | N]; simpl.
  - destruct (existsb _ calls) eqn:E; [f_equal; lia |].
    rewrite (tokens_under_absent _ _ E). f_equal. lia.
  - reflexivity.
Qed.

(** X4.  After any run of [add_tokens] calls on a new [Metrics],
    [tokens_used] holds, for each model name that was given, the sum of
    the counts given under that name, and nothing for the other names. *)
Theorem add_tokens_totals (tl ppc pen : Z) (calls : list (string * Z)) (name : string) :
  tokens_used (add_tokens_all (init tl ppc pen) calls) !! name =
  if existsb (fun call => String.eqb (fst call) name) calls
  then Some (tokens_under name calls)
  else None.
Proof.
  rewrite add_tokens_all_lookup. unfold init. cbn [tokens_used].
  rewrite lookup_empty. destruct (existsb _ calls); reflexivity.
Qed.

End MetricsFacts.

(** ** The string methods on examples *)

Example strip_ex : PyStr.strip "  Group: a, b  " = "Group: a, b".
Proof. reflexivity. Qed.
Example split_ex : PyStr.split PyStr.comma "a,,b," = ["a"; ""; "b"; ""].
Proof. reflexivity. Qed.
Example replace_ex : PyStr.replace "Group:" "" "Group: a, Group:b" = " a, b".
Proof. reflexivity. Qed.
Example of_Z_ex : PyStr.of_Z (-40) = "-40" /\ PyStr.of_Z 0 = "0" /\ PyStr.of_nat 12 = "12".
Proof. repeat split; reflexivity. Qed.

Example parse_guesser_reply_ex :
  GVCSolver.parse_guesser_reply
    ("  Group: Bass , Flounder,Salmon,  Trout " ++ PyStr.nl ++ "Category:  Fish ")
  = Ok (["Bass"; "Flounder"; "Salmon"; "Trout"], "Fish").
Proof. vm_compute. reflexivity. Qed.

Example parse_guesser_reply_three_words :
  GVCSolver.parse_guesser_reply ("Group: Bass, Flounder, Salmon" ++ PyStr.nl ++ "Category: Fish")
  = Raise (ValueError "GuesserAgent's group contains 3 words; expected exactly 4.").
Proof. vm_compute. reflexivity. Qed.

Example parse_consensus_reply_ex :
  GVCSolver.parse_consensus_reply "Consensus REACHED." = true /\
  GVCSolver.parse_consensus_reply "Consensus not reached" = false /\
  GVCSolver.parse_consensus_reply "They match." = false.
Proof. repeat split. Qed.

